(** * Live acquisition session of the LUCID PHX004_MC camera

    A shallow embedding of [live_Lucid_PHX004_MC.py]: the connection loop
    [create_devices_with_tries_ip], the configuration [setup], the write-back
    [restore_initial_settings], the frame decoding done inside the loop of
    [main], and [main] itself with its [try]/[finally] block.

    The program talks to a camera, a display and the operating system.  These
    are modelled by an explicit [world] (the node values of the camera and the
    trace of external calls issued so far) and an environment [env] that
    fixes what the outside answers: which discovery attempts find a device,
    which parameter writes the camera accepts, which frames arrive and which
    keys are pressed.  Wall-clock time (the fps overlay) is not modelled. *)

From Stdlib Require Import ZArith QArith Lia.
From Stdlib.Strings Require Import Byte.
From stdpp Require Import base option list strings gmap.

Local Open Scope nat_scope.

Module Lucid.

(** ** Values, settings and exceptions *)

(** The value of a camera node: an enumeration entry, a flag, an integer
    or a float (floats are taken as rationals). *)
Inductive value : Type :=
  | VStr (s : string)
  | VBool (b : bool)
  | VInt (z : Z)
  | VFloat (q : Q).

(** [class Settings].  [FPS] is derived from [EXP_TIME_US]: it is the
    value of line 20 when its division is defined, computed without rounding
    (the class body raises [ZeroDivisionError] for a zero exposure time, see
    [load_settings]). *)
Record Settings : Type := {
  EXP_TIME_US : Q;
  BINNING : Z;
  CAMERA_IP : string;
  PIXEL_FORMAT : string;
  BYTES_PER_PIXEL : nat
}.

Definition FPS (s : Settings) : Q :=
  (1 / (EXP_TIME_US s * (1 # 1000000)) * (9 # 10))%Q.

(** The values written in the source file. *)
Definition program_settings : Settings := {|
  EXP_TIME_US := 20000 # 1;
  BINNING := 4;
  CAMERA_IP := "10.236.10.220";
  PIXEL_FORMAT := "Mono12";
  BYTES_PER_PIXEL := 2
|}.

(** Exceptions the program can see.  [NoDeviceFound] is the
    [Exception('No device found! ...')] of the connection loop. *)
Inductive exn : Type :=
  | NoDeviceFound
  | KeyError (k : string)
  | WriteRejected (p : string)
  | ValueError
  | TypeError
  | AcquisitionError
  | KeyboardInterrupt
  | ZeroDivisionError.

(** The result of running a piece of the program: a value, an exception,
    or [Diverge] when the modelled loop has not stopped within its fuel. *)
Inductive outcome (A : Type) : Type :=
  | Ret (a : A)
  | Raise (e : exn)
  | Diverge.
Arguments Ret {A} a.
Arguments Raise {A} e.
Arguments Diverge {A}.

(** ** Frame decoding (lines 73-87 of [main]) *)

(** The local copy made by [BufferFactory.copy]: the declared geometry, the
    bytes of the copy ([item.data]), and the bytes that happen to follow the
    copy in memory.  [item.pbytes] is the address of the first byte, and
    ctypes reads from that address without any bound. *)
Record item : Type := {
  width : nat;
  height : nat;
  data : list byte;
  beyond : nat -> byte
}.

Definition pbytes (it : item) (i : nat) : byte :=
  match data it !! i with
  | Some b => b
  | None => beyond it (i - length (data it))
  end.

Definition byte_val (b : byte) : Z := Z.of_N (Byte.to_N b).

(** [view(np.uint16)]: cell [k] is made of bytes [2k] (low) and [2k+1]
    (high). *)
Definition uint16_at (mem : nat -> byte) (k : nat) : Z :=
  Z.lor (byte_val (mem (2 * k))) (Z.shiftl (byte_val (mem (2 * k + 1))) 8).

(** [np.repeat(a, k, axis=0)] and [np.repeat(a, k, axis=1)]. *)
Definition np_repeat_axis0 {A} (a : list (list A)) (k : nat) : list (list A) :=
  flat_map (fun row => repeat row k) a.

Definition np_repeat_axis1 {A} (a : list (list A)) (k : nat) : list (list A) :=
  map (fun row => flat_map (fun c => repeat c k) row) a.

(** The cell at row [r], column [c] of the 16-bit image. *)
Definition cell_of (it : item) (r c : nat) : Z :=
  uint16_at (pbytes it) (r * width it + c).

(** The decoding steps, with the checks numpy makes:
    - [np.ndarray(buffer=array, shape=(H, W, B))] needs [H*W*B] bytes in the
      ctypes array of [num_channels*W*H] bytes ([TypeError] otherwise);
    - [view(np.uint16)] needs an even last axis ([ValueError] otherwise);
    - [reshape(H, W)] needs [H*W*(B/2) = H*W] cells ([ValueError]
      otherwise).
    The byte length of the buffer itself is never looked at. *)
Definition decode (num_channels bytes_per_pixel : nat) (binning : Z) (it : item)
  : outcome (list (list Z)) :=
  let array_size := num_channels * width it * height it in
  if array_size <? height it * width it * bytes_per_pixel then Raise TypeError
  else if negb (bytes_per_pixel mod 2 =? 0) then Raise ValueError
  else if negb (height it * width it * (bytes_per_pixel / 2) =? height it * width it)
  then Raise ValueError
  else
    let image_16bit :=
      map (fun r => map (fun c => cell_of it r c) (seq 0 (width it)))
          (seq 0 (height it)) in
    Ret (if (1 <? binning)%Z
         then np_repeat_axis1 (np_repeat_axis0 image_16bit (Z.to_nat binning))
                              (Z.to_nat binning)
         else image_16bit).

(** A grid has shape [(h, w)]: [h] rows of [w] cells. *)
Definition has_shape {A} (g : list (list A)) (h w : nat) : Prop :=
  length g = h /\ Forall (fun row => length row = w) g.

(** The cell of a grid at [(i, j)], if any. *)
Definition grid_at {A} (g : list (list A)) (i j : nat) : option A :=
  match g !! i with
  | Some row => row !! j
  | None => None
  end.

(** ** The outside world *)

(** What [print] writes.  Literal lines carry their text (without the
    dashes that decorate them), [MsgRule] is a line of dashes; formatted
    lines carry the values they show. *)
Inductive message : Type :=
  | MsgBlank
  | MsgRule
  | MsgText (s : string)
  | MsgTry (k n : nat)
  | MsgCreated (n : nat)
  | MsgPingFinished (returncode : Z)
  | MsgSavedFeatures
  | MsgFrameRateLimits (lo hi : Q)
  | MsgFrameRateSet (v : value)
  | MsgExposureLimits (lo hi : Q)
  | MsgExposureWarning (requested : Q)
  | MsgExposureSet (v : value)
  | MsgTriggerSelector (v : value)
  | MsgTriggerMode (v : value)
  | MsgBinningHorizontal (v : value)
  | MsgBinningVertical (v : value)
  | MsgRestoring
  | MsgMaxValue (m : Z)
  | MsgDestroyed.

(** One external call.  A parameter write records whether the camera
    accepted it. *)
Inductive event : Type :=
  | CreateDevice
  | RunPing (ip : string) (count : nat)
  | Print (m : message)
  | SelectDevice
  | SaveFeatures
  | WriteStreamable
  | GetNode (names : list string)
  | ReadValue (p : string)
  | ReadMin (p : string)
  | ReadMax (p : string)
  | WriteValue (p : string) (v : value) (accepted : bool)
  | TLWrite (p : string) (v : value) (accepted : bool)
  | StartStream
  | ExitStream
  | StopStream
  | GetBuffer
  | CopyBuffer
  | RequeueBuffer
  | ImShow
  | DestroyItem
  | WaitKey
  | DestroyAllWindows
  | DestroyDevice.

(** The camera's node values ([device.nodemap] and
    [device.tl_stream_nodemap]) and the calls issued so far, oldest first. *)
Record world : Type := {
  cam : gmap string value;
  tl_stream : gmap string value;
  log : list event
}.

(** The answers of the outside, given the calls issued so far or the
    current node values. *)
Record env : Type := {
  discover : list event -> list nat;
  ping_returncode : list event -> Z;
  accepts : gmap string value -> string -> value -> bool;
  tl_accepts : gmap string value -> string -> value -> bool;
  limits : gmap string value -> string -> Q * Q;
  next_buffer : list event -> outcome item;
  pressed_key : list event -> Z
}.

(** ** A state and exception monad *)

Definition M (A : Type) : Type := world -> outcome A * world.

Definition ret {A} (a : A) : M A := fun w => (Ret a, w).

Definition raise {A} (e : exn) : M A := fun w => (Raise e, w).

Definition diverge {A} : M A := fun w => (Diverge, w).

Definition bind {A B} (m : M A) (f : A -> M B) : M B :=
  fun w =>
    match m w with
    | (Ret a, w') => f a w'
    | (Raise e, w') => (Raise e, w')
    | (Diverge, w') => (Diverge, w')
    end.

Declare Scope prog_scope.
Delimit Scope prog_scope with prog.
Notation "x <- m ;; k" := (bind m (fun x => k))
  (at level 20, m at level 99, k at level 200, only parsing) : prog_scope.
Notation "m ;; k" := (bind m (fun _ => k))
  (at level 100, k at level 200, only parsing, right associativity) : prog_scope.

(** [try: body finally: fin].  The [finally] block runs after a return and
    after an exception; an exception of the block itself replaces the
    pending one.  A run that has not ended has not reached the block. *)
Definition try_finally {A} (body : M A) (fin : M unit) : M A :=
  fun w =>
    match body w with
    | (Diverge, w') => (Diverge, w')
    | (r, w') =>
        match fin w' with
        | (Ret _, w'') => (r, w'')
        | (Raise e, w'') => (Raise e, w'')
        | (Diverge, w'') => (Diverge, w'')
        end
    end.

Definition record_event (ev : event) (w : world) : world :=
  {| cam := cam w; tl_stream := tl_stream w; log := log w ++ [ev] |}.

(** An external call that returns nothing of interest. *)
Definition call (ev : event) : M unit := fun w => (Ret tt, record_event ev w).

Definition print (m : message) : M unit := call (Print m).

(** ** The program *)

Section Program.

Variable E : env.
Variable S : Settings.

Local Open Scope prog_scope.

(** [system.create_device()]: the list of devices found, possibly empty. *)
Definition create_device : M (list nat) :=
  fun w => (Ret (discover E (log w)), record_event CreateDevice w).

(** [ping_host(ip, count=3)]: runs [ping] and prints its return code. *)
Definition ping_host (ip : string) : M unit :=
  returncode <- (fun w => (Ret (ping_returncode E (log w)),
                           record_event (RunPing ip 3) w)) ;;
  print (MsgPingFinished returncode).

(** The [while tries < tries_max] loop of [create_devices_with_tries_ip].
    [remaining] is [tries_max - tries]: every turn of the loop either returns
    or increments [tries]. *)
Fixpoint connect_loop (tries_max remaining tries : nat) : M (list nat) :=
  match remaining with
  | 0 => raise NoDeviceFound
  | Datatypes.S remaining' =>
      devices <- create_device ;;
      match devices with
      | [] =>
          print (MsgTry (tries + 1) tries_max) ;;
          ping_host (CAMERA_IP S) ;;
          ping_host (CAMERA_IP S) ;;
          connect_loop tries_max remaining' (tries + 1)
      | _ :: _ =>
          print MsgBlank ;;
          print (MsgText "SUCCESSFULLY CONNECTED TO DEVICE") ;;
          print (MsgCreated (length devices)) ;;
          print MsgRule ;;
          print MsgBlank ;;
          ret devices
      end
  end.

(** The function with [tries_max] attempts, starting at [tries = 0]. *)
Definition connect (tries_max : nat) : M (list nat) :=
  print (MsgText "CONNECTING TO CAMERA") ;;
  print MsgBlank ;;
  print (MsgText "Waiting for device to be connected...") ;;
  connect_loop tries_max tries_max 0.

Definition create_devices_with_tries_ip : M (list nat) := connect 6.

(** [nodemap.get_node(names)]: the nodes of these names; fails on the first
    name the camera does not have.  The dictionary returned maps each name to
    its node, so its keys stand for it. *)
Definition get_node (names : list string) : M (list string) :=
  fun w =>
    match List.find (fun n => bool_decide (cam w !! n = None)) names with
    | Some n => (Raise (KeyError n), record_event (GetNode names) w)
    | None => (Ret names, record_event (GetNode names) w)
    end.

(** [nodes[p].value] read. *)
Definition node_value (nodes : list string) (p : string) : M value :=
  fun w =>
    if bool_decide (p ∈ nodes) then
      match cam w !! p with
      | Some v => (Ret v, record_event (ReadValue p) w)
      | None => (Raise (KeyError p), record_event (ReadValue p) w)
      end
    else (Raise (KeyError p), w).

(** [nodes[p].value = v]: the camera accepts the value and holds it from
    then on, or rejects it and keeps what it had. *)
Definition set_node_value (nodes : list string) (p : string) (v : value) : M unit :=
  fun w =>
    if bool_decide (p ∈ nodes) then
      if accepts E (cam w) p v then
        (Ret tt, {| cam := <[p := v]> (cam w); tl_stream := tl_stream w;
                    log := log w ++ [WriteValue p v true] |})
      else (Raise (WriteRejected p), record_event (WriteValue p v false) w)
    else (Raise (KeyError p), w).

(** [nodes[p].min] and [nodes[p].max]. *)
Definition node_min (nodes : list string) (p : string) : M Q :=
  fun w =>
    if bool_decide (p ∈ nodes)
    then (Ret (fst (limits E (cam w) p)), record_event (ReadMin p) w)
    else (Raise (KeyError p), w).

Definition node_max (nodes : list string) (p : string) : M Q :=
  fun w =>
    if bool_decide (p ∈ nodes)
    then (Ret (snd (limits E (cam w) p)), record_event (ReadMax p) w)
    else (Raise (KeyError p), w).

(** [tl_stream_nodemap[p].value = v]. *)
Definition set_tl_value (p : string) (v : value) : M unit :=
  fun w =>
    if tl_accepts E (tl_stream w) p v then
      (Ret tt, {| cam := cam w; tl_stream := <[p := v]> (tl_stream w);
                  log := log w ++ [TLWrite p v true] |})
    else (Raise (WriteRejected p), record_event (TLWrite p v false) w).

Definition selected_parameters : list string :=
  ["PixelFormat"; "ExposureAuto"; "ExposureTime";
   "AcquisitionFrameRateEnable"; "AcquisitionFrameRate";
   "TriggerSelector"; "TriggerMode"; "TriggerSource";
   "BinningHorizontal"; "BinningVertical"].

(** [for param in params: initial_settings[param] = nodes[param].value]. *)
Fixpoint store_initial_settings (nodes params : list string)
    (initial_settings : gmap string value) : M (gmap string value) :=
  match params with
  | [] => ret initial_settings
  | param :: rest =>
      v <- node_value nodes param ;;
      store_initial_settings nodes rest (<[param := v]> initial_settings)
  end.

Definition Qgt_bool (x y : Q) : bool := negb (Qle_bool x y).
Definition Qlt_bool (x y : Q) : bool := negb (Qle_bool y x).

(** The exposure time written to the camera (lines 202-207), and whether
    the warning of line 200 is printed. *)
Definition exposure_to_apply (requested min_exp max_exp : Q) : Q :=
  if Qgt_bool requested max_exp then max_exp
  else if Qlt_bool requested min_exp then min_exp
  else requested.

Definition exposure_warning (requested min_exp max_exp : Q) : bool :=
  Qgt_bool requested max_exp || Qlt_bool requested min_exp.

(** [setup(device)]: returns [num_channels], [nodes],
    [selected_parameters] and [initial_settings]. *)
Definition setup
  : M (nat * list string * list string * gmap string value) :=
  nodes <- get_node selected_parameters ;;
  set_node_value nodes "PixelFormat" (VStr (PIXEL_FORMAT S)) ;;
  (* === Store initial settings === *)
  initial_settings <- store_initial_settings nodes selected_parameters ∅ ;;
  print (MsgText "CAMERA SETUP") ;;
  set_node_value nodes "AcquisitionFrameRateEnable" (VBool true) ;;
  set_node_value nodes "AcquisitionFrameRate" (VFloat (FPS S)) ;;
  fps_min <- node_min nodes "AcquisitionFrameRate" ;;
  fps_max <- node_max nodes "AcquisitionFrameRate" ;;
  print (MsgFrameRateLimits fps_min fps_max) ;;
  fps_now <- node_value nodes "AcquisitionFrameRate" ;;
  print (MsgFrameRateSet fps_now) ;;
  (* === Disable Auto Exposure and Set Fixed Exposure Time === *)
  set_node_value nodes "ExposureAuto" (VStr "Off") ;;
  min_exp <- node_min nodes "ExposureTime" ;;
  max_exp <- node_max nodes "ExposureTime" ;;
  print (MsgExposureLimits min_exp max_exp) ;;
  (if exposure_warning (EXP_TIME_US S) min_exp max_exp
   then print (MsgExposureWarning (EXP_TIME_US S))
   else ret tt) ;;
  set_node_value nodes "ExposureTime"
    (VFloat (exposure_to_apply (EXP_TIME_US S) min_exp max_exp)) ;;
  exp_now <- node_value nodes "ExposureTime" ;;
  print (MsgExposureSet exp_now) ;;
  (* === Trigger setup === *)
  set_node_value nodes "TriggerSelector" (VStr "FrameStart") ;;
  set_node_value nodes "TriggerMode" (VStr "Off") ;;
  sel_now <- node_value nodes "TriggerSelector" ;;
  print (MsgTriggerSelector sel_now) ;;
  mode_now <- node_value nodes "TriggerMode" ;;
  print (MsgTriggerMode mode_now) ;;
  (* Set up the Binning *)
  set_node_value nodes "BinningHorizontal" (VInt (BINNING S)) ;;
  set_node_value nodes "BinningVertical" (VInt (BINNING S)) ;;
  bh_now <- node_value nodes "BinningHorizontal" ;;
  print (MsgBinningHorizontal bh_now) ;;
  bv_now <- node_value nodes "BinningVertical" ;;
  print (MsgBinningVertical bv_now) ;;
  (* Stream settings *)
  set_tl_value "StreamBufferHandlingMode" (VStr "NewestOnly") ;;
  set_tl_value "StreamAutoNegotiatePacketSize" (VBool true) ;;
  set_tl_value "StreamPacketResendEnable" (VBool true) ;;
  let num_channels := 3 in
  ret (num_channels, nodes, selected_parameters, initial_settings).

(** [for param in params: nodes[param].value = initial_settings[param]]. *)
Fixpoint write_back (nodes params : list string)
    (initial_settings : gmap string value) : M unit :=
  match params with
  | [] => ret tt
  | param :: rest =>
      match initial_settings !! param with
      | Some v =>
          set_node_value nodes param v ;;
          write_back nodes rest initial_settings
      | None => raise (KeyError param)
      end
  end.

Definition restore_initial_settings (nodes params : list string)
    (initial_settings : gmap string value) : M unit :=
  print MsgRestoring ;;
  write_back nodes params initial_settings.

(** [save_features_to_file(device, filename)]: a dump of every feature to a
    file; a feature without a value is written as N/A, so the dump does not
    fail on the camera's account. *)
Definition save_features_to_file : M unit :=
  call SaveFeatures ;;
  print MsgSavedFeatures.

(** [device.get_buffer()]: a frame, or the exception the driver or an
    interrupt raises while waiting. *)
Definition get_buffer : M item :=
  fun w => (next_buffer E (log w), record_event GetBuffer w).

(** [cv2.waitKey(1)]. *)
Definition wait_key : M Z :=
  fun w => (Ret (pressed_key E (log w)), record_event WaitKey w).

(** [np.max(image)]: fails on an image without cells. *)
Definition np_max (image : list (list Z)) : M Z :=
  match concat image with
  | [] => raise ValueError
  | c :: cells => ret (fold_left Z.max cells c)
  end.

Definition lift {A} (r : outcome A) : M A := fun w => (r, w).

(** The [while True] loop of [main].  [fuel] bounds the number of
    iterations that are followed. *)
Fixpoint acquisition_loop (fuel : nat) (num_channels : nat) : M unit :=
  match fuel with
  | 0 => diverge
  | Datatypes.S fuel' =>
      it <- get_buffer ;;
      call CopyBuffer ;;
      call RequeueBuffer ;;
      image_16bit <- lift (decode num_channels (BYTES_PER_PIXEL S) (BINNING S) it) ;;
      m <- np_max image_16bit ;;
      print (MsgMaxValue m) ;;
      call ImShow ;;
      call DestroyItem ;;
      key <- wait_key ;;
      if (key =? 27)%Z then ret tt else acquisition_loop fuel' num_channels
  end.

(** [with device.start_stream(): body]. *)
Definition with_stream {A} (body : M A) : M A :=
  call StartStream ;;
  try_finally body (call ExitStream).

(** Lines 39-58 of [main]: everything before the [try]. *)
Definition prelude
  : M (nat * list string * list string * gmap string value) :=
  devices <- create_devices_with_tries_ip ;;
  call SelectDevice ;;
  save_features_to_file ;;
  call WriteStreamable ;;
  st <- setup ;;
  print (MsgText "LIVE ACQUISITION STARTED, press ESC to stop") ;;
  ret st.

(** The [finally] block of [main]. *)
Definition teardown (nodes params : list string)
    (initial_settings : gmap string value) : M unit :=
  call StopStream ;;
  restore_initial_settings nodes params initial_settings ;;
  call DestroyAllWindows ;;
  call DestroyDevice ;;
  print MsgDestroyed.

(** Lines 60-115 of [main]: the [try]/[finally] statement. *)
Definition streaming (fuel : nat)
    (st : nat * list string * list string * gmap string value) : M unit :=
  let '(num_channels, nodes, selected, initial_settings) := st in
  try_finally (with_stream (acquisition_loop fuel num_channels))
              (teardown nodes selected initial_settings).

Definition main (fuel : nat) : M unit :=
  st <- prelude ;;
  streaming fuel st.

End Program.

(** ** Reading traces *)

Definition is_attempt (ev : event) : bool :=
  match ev with CreateDevice => true | _ => false end.

Definition is_probe (ev : event) : bool :=
  match ev with RunPing _ _ => true | _ => false end.

Definition is_attempt_or_probe (ev : event) : bool :=
  is_attempt ev || is_probe ev.

(** Any access to a camera parameter: looking nodes up, reading or writing
    a value, reading a limit. *)
Definition is_parameter_access (ev : event) : bool :=
  match ev with
  | GetNode _ | ReadValue _ | ReadMin _ | ReadMax _
  | WriteValue _ _ _ | TLWrite _ _ _ => true
  | _ => false
  end.

(** One failed round of the connection loop, seen from the network. *)
Definition attempt_round (ip : string) : list event :=
  [CreateDevice; RunPing ip 3; RunPing ip 3].

(** The start of [restore_initial_settings], and the disconnect. *)
Definition is_restore (ev : event) : bool :=
  match ev with Print MsgRestoring => true | _ => false end.

Definition is_disconnect (ev : event) : bool :=
  match ev with DestroyDevice => true | _ => false end.

Definition is_rejected_write (ev : event) : bool :=
  match ev with WriteValue _ _ false => true | _ => false end.

(** The parameter writes of a trace, in order: name and whether accepted. *)
Definition write_attempts (l : list event) : list (string * bool) :=
  flat_map (fun ev => match ev with
                      | WriteValue p _ b => [(p, b)]
                      | _ => []
                      end) l.

(** The names written in either node map. *)
Definition written_names (l : list event) : list string :=
  flat_map (fun ev => match ev with
                      | WriteValue p _ _ | TLWrite p _ _ => [p]
                      | _ => []
                      end) l.

(** The names whose value is read. *)
Definition read_names (l : list event) : list string :=
  flat_map (fun ev => match ev with ReadValue p => [p] | _ => [] end) l.

(** ** Concrete cameras and environments *)

Definition factory_cam : gmap string value :=
  list_to_map
    [("PixelFormat", VStr "Mono8"); ("ExposureAuto", VStr "Continuous");
     ("ExposureTime", VFloat (1000 # 1));
     ("AcquisitionFrameRateEnable", VBool false);
     ("AcquisitionFrameRate", VFloat (30 # 1));
     ("TriggerSelector", VStr "FrameStart"); ("TriggerMode", VStr "On");
     ("TriggerSource", VStr "Line0");
     ("BinningHorizontal", VInt 1); ("BinningVertical", VInt 1)].

Definition fresh_world : world :=
  {| cam := factory_cam; tl_stream := ∅; log := [] |}.

(** A camera that is connected but exposes no node. *)
Definition bare_world : world :=
  {| cam := ∅; tl_stream := ∅; log := [] |}.

(** A frame of two pixels in one row, two bytes each. *)
Definition frame_2x1 : item :=
  {| width := 2; height := 1; data := [x01; x02; x03; x04];
     beyond := fun _ => x00 |}.

(** One pixel of one byte. *)
Definition frame_mono8 : item :=
  {| width := 1; height := 1; data := [x2a]; beyond := fun _ => x00 |}.

(** One pixel declared, three bytes delivered. *)
Definition frame_long : item :=
  {| width := 1; height := 1; data := [x01; x02; x03]; beyond := fun _ => x00 |}.

(** One pixel declared, one byte delivered. *)
Definition frame_short : item :=
  {| width := 1; height := 1; data := [x01]; beyond := fun _ => x07 |}.

(** A camera found at the first attempt that accepts every write, a frame
    at every call, and ESC pressed at once. *)
Definition quiet_env : env := {|
  discover := fun _ => [0];
  ping_returncode := fun _ => 0%Z;
  accepts := fun _ _ _ => true;
  tl_accepts := fun _ _ _ => true;
  limits := fun _ _ => (10 # 1, 100000 # 1)%Q;
  next_buffer := fun _ => Ret frame_2x1;
  pressed_key := fun _ => 27%Z
|}.

(** No camera answers. *)
Definition unreachable_env : env := {|
  discover := fun _ => [];
  ping_returncode := fun _ => 1%Z;
  accepts := fun _ _ _ => true;
  tl_accepts := fun _ _ _ => true;
  limits := fun _ _ => (10 # 1, 100000 # 1)%Q;
  next_buffer := fun _ => Ret frame_2x1;
  pressed_key := fun _ => 27%Z
|}.

(** A camera that refuses a new exposure time while automatic exposure is
    on, as GenICam cameras do. *)
Definition exposure_locked (c : gmap string value) (p : string) : bool :=
  String.eqb p "ExposureTime" &&
  match c !! "ExposureAuto" with
  | Some (VStr mode) => negb (String.eqb mode "Off")
  | _ => false
  end.

Definition locking_env : env := {|
  discover := fun _ => [0];
  ping_returncode := fun _ => 0%Z;
  accepts := fun c p _ => negb (exposure_locked c p);
  tl_accepts := fun _ _ _ => true;
  limits := fun _ _ => (10 # 1, 100000 # 1)%Q;
  next_buffer := fun _ => Ret frame_2x1;
  pressed_key := fun _ => 27%Z
|}.

(** The first [get_buffer] times out. *)
Definition timeout_env : env := {|
  discover := fun _ => [0];
  ping_returncode := fun _ => 0%Z;
  accepts := fun _ _ _ => true;
  tl_accepts := fun _ _ _ => true;
  limits := fun _ _ => (10 # 1, 100000 # 1)%Q;
  next_buffer := fun _ => Raise AcquisitionError;
  pressed_key := fun _ => 0%Z
|}.

(** ** What a successful [setup] does *)

Section SetupTrace.

Variable E : env.
Variable S : Settings.

(** The node values while [setup] runs: after the pixel format is
    written, after the frame rate is written, after automatic exposure is
    switched off, and at the end. *)
Definition cam_with_format (c : gmap string value) : gmap string value :=
  <["PixelFormat" := VStr (PIXEL_FORMAT S)]> c.

Definition cam_with_rate (c : gmap string value) : gmap string value :=
  <["AcquisitionFrameRate" := VFloat (FPS S)]>
    (<["AcquisitionFrameRateEnable" := VBool true]> (cam_with_format c)).

Definition cam_before_exposure (c : gmap string value) : gmap string value :=
  <["ExposureAuto" := VStr "Off"]> (cam_with_rate c).

(** The limits the camera reports for the exposure time when [setup] asks. *)
Definition exposure_limits (c : gmap string value) : Q * Q :=
  limits E (cam_before_exposure c) "ExposureTime".

Definition applied_exposure (c : gmap string value) : Q :=
  exposure_to_apply (EXP_TIME_US S)
    (fst (exposure_limits c)) (snd (exposure_limits c)).

Definition cam_configured (c : gmap string value) : gmap string value :=
  <["BinningVertical" := VInt (BINNING S)]>
    (<["BinningHorizontal" := VInt (BINNING S)]>
      (<["TriggerMode" := VStr "Off"]>
        (<["TriggerSelector" := VStr "FrameStart"]>
          (<["ExposureTime" := VFloat (applied_exposure c)]>
            (cam_before_exposure c))))).

Definition tl_configured (t : gmap string value) : gmap string value :=
  <["StreamPacketResendEnable" := VBool true]>
    (<["StreamAutoNegotiatePacketSize" := VBool true]>
      (<["StreamBufferHandlingMode" := VStr "NewestOnly"]> t)).

(** The calls of a [setup] that returns, given the node values [c] it
    started from. *)
Definition setup_trace (c : gmap string value) : list event :=
  let fps_limits := limits E (cam_with_rate c) "AcquisitionFrameRate" in
  let exp_limits := exposure_limits c in
  let applied := VFloat (applied_exposure c) in
  [GetNode selected_parameters;
   WriteValue "PixelFormat" (VStr (PIXEL_FORMAT S)) true]
  ++ map ReadValue selected_parameters ++
  [Print (MsgText "CAMERA SETUP");
   WriteValue "AcquisitionFrameRateEnable" (VBool true) true;
   WriteValue "AcquisitionFrameRate" (VFloat (FPS S)) true;
   ReadMin "AcquisitionFrameRate"; ReadMax "AcquisitionFrameRate";
   Print (MsgFrameRateLimits (fst fps_limits) (snd fps_limits));
   ReadValue "AcquisitionFrameRate";
   Print (MsgFrameRateSet (VFloat (FPS S)));
   WriteValue "ExposureAuto" (VStr "Off") true;
   ReadMin "ExposureTime"; ReadMax "ExposureTime";
   Print (MsgExposureLimits (fst exp_limits) (snd exp_limits))]
  ++ (if exposure_warning (EXP_TIME_US S) (fst exp_limits) (snd exp_limits)
      then [Print (MsgExposureWarning (EXP_TIME_US S))] else []) ++
  [WriteValue "ExposureTime" applied true;
   ReadValue "ExposureTime"; Print (MsgExposureSet applied);
   WriteValue "TriggerSelector" (VStr "FrameStart") true;
   WriteValue "TriggerMode" (VStr "Off") true;
   ReadValue "TriggerSelector"; Print (MsgTriggerSelector (VStr "FrameStart"));
   ReadValue "TriggerMode"; Print (MsgTriggerMode (VStr "Off"));
   WriteValue "BinningHorizontal" (VInt (BINNING S)) true;
   WriteValue "BinningVertical" (VInt (BINNING S)) true;
   ReadValue "BinningHorizontal"; Print (MsgBinningHorizontal (VInt (BINNING S)));
   ReadValue "BinningVertical"; Print (MsgBinningVertical (VInt (BINNING S)));
   TLWrite "StreamBufferHandlingMode" (VStr "NewestOnly") true;
   TLWrite "StreamAutoNegotiatePacketSize" (VBool true) true;
   TLWrite "StreamPacketResendEnable" (VBool true) true].

End SetupTrace.

(** [m] only issues calls that satisfy [P]: whatever it returns, the trace
    grows by such calls only. *)
Definition emits {A} (P : event -> bool) (m : M A) : Prop :=
  forall w r w', m w = (r, w') ->
    exists l, log w' = log w ++ l /\ forallb P l = true.

(** Calls that belong to the [finally] block of [main] alone. *)
Definition is_teardown (ev : event) : bool :=
  match ev with
  | StopStream | Print MsgRestoring | DestroyAllWindows | DestroyDevice
  | Print MsgDestroyed => true
  | _ => false
  end.

Definition not_teardown (ev : event) : bool := negb (is_teardown ev).

(** ** Reading the trace of a write-back *)

(** The attempts of a write-back that wrote all of [params]. *)
Definition accepted_writes (params : list string) : list (string * bool) :=
  map (fun p => (p, true)) params.

(** Every call of the trace writes a snapshot value to its parameter. *)
Definition writes_from (init : gmap string value) (l : list event) : Prop :=
  Forall (fun ev => exists p v b, ev = WriteValue p v b /\ init !! p = Some v) l.

(** The outcome of restoring the factory values on a camera whose
    automatic exposure is on and locks the exposure time. *)
Definition locked_restore : outcome unit * world :=
  restore_initial_settings locking_env selected_parameters selected_parameters
    factory_cam fresh_world.

(** ** Reading the trace of the [finally] block *)

Definition is_get_buffer (ev : event) : bool :=
  match ev with GetBuffer => true | _ => false end.

(** The three calls that follow a restore that returned. *)
Definition disconnect_calls : list event :=
  [DestroyAllWindows; DestroyDevice; Print MsgDestroyed].

(** A whole session on a camera that locks its exposure time while
    automatic exposure is on: ESC is pressed after the first frame. *)
Definition locked_session : outcome unit * world :=
  main locking_env program_settings 1 fresh_world.

(** A whole session whose first [get_buffer] times out, followed for up to
    five iterations. *)
Definition timeout_session : outcome unit * world :=
  main timeout_env program_settings 5 fresh_world.

(** A whole session without incident. *)
Definition quiet_session : outcome unit * world :=
  main quiet_env program_settings 1 fresh_world.

(** ** What [setup] captures and what it writes *)

(** The parameters [setup] writes in [device.nodemap], in order, and those
    it writes in [device.tl_stream_nodemap]. *)
Definition configured_parameters : list string :=
  ["PixelFormat"; "AcquisitionFrameRateEnable"; "AcquisitionFrameRate";
   "ExposureAuto"; "ExposureTime"; "TriggerSelector"; "TriggerMode";
   "BinningHorizontal"; "BinningVertical"].

Definition stream_parameters : list string :=
  ["StreamBufferHandlingMode"; "StreamAutoNegotiatePacketSize";
   "StreamPacketResendEnable"].

Definition name_in (l : list string) (p : string) : bool :=
  existsb (String.eqb p) l.

(** The names of [l] that are not in [l']. *)
Definition names_missing_from (l' l : list string) : list string :=
  List.filter (fun p => negb (name_in l' p)) l.

(** The snapshot a [setup] returned, if it returned. *)
Definition snapshot_of
    (r : outcome (nat * list string * list string * gmap string value))
  : gmap string value :=
  match r with
  | Ret (_, _, _, initial_settings) => initial_settings
  | _ => ∅
  end.

(** [setup] on the factory camera, every write accepted. *)
Definition quiet_setup
  : outcome (nat * list string * list string * gmap string value) * world :=
  setup quiet_env program_settings fresh_world.

(** Every node of [selected_parameters] exists on the camera. *)
Definition nodes_present (w : world) : Prop :=
  Forall (fun p => is_Some (cam w !! p)) selected_parameters.

(** The camera rejects no write. *)
Definition accepting (E : env) : Prop :=
  (forall c p v, accepts E c p v = true) /\
  (forall t p v, tl_accepts E t p v = true).

(** From a world satisfying [I], [m] returns and [I] holds again. *)
Definition returns {A} (I : world -> Prop) (m : M A) : Prop :=
  forall w, I w -> exists a w', m w = (Ret a, w') /\ I w'.

(** ** Comparing node values *)

Definition value_eqb (a b : value) : bool :=
  match a, b with
  | VStr x, VStr y => String.eqb x y
  | VBool x, VBool y => Bool.eqb x y
  | VInt x, VInt y => Z.eqb x y
  | VFloat x, VFloat y => Qeq_bool x y
  | _, _ => false
  end.

(** The parameters of [params] that do not hold in [after] the value they
    held in [before]. *)
Definition unrestored (before after : gmap string value) (params : list string)
  : list string :=
  List.filter (fun p => match before !! p, after !! p with
                        | Some a, Some b => negb (value_eqb a b)
                        | None, None => false
                        | _, _ => true
                        end) params.

(** ** One iteration of the loop *)

Definition is_wait_key (ev : event) : bool :=
  match ev with WaitKey => true | _ => false end.

(** The world after the calls [l]. *)
Definition extend (w : world) (l : list event) : world :=
  {| cam := cam w; tl_stream := tl_stream w; log := log w ++ l |}.

(** The maximum [np.max] prints, if the image has a cell. *)
Definition image_max (image : list (list Z)) : option Z :=
  match concat image with
  | [] => None
  | c :: cells => Some (fold_left Z.max cells c)
  end.

(** The calls of an iteration before [cv2.waitKey], for an image whose
    maximum is [m]. *)
Definition iteration_calls (m : Z) : list event :=
  [GetBuffer; CopyBuffer; RequeueBuffer; Print (MsgMaxValue m); ImShow;
   DestroyItem].

Section Iteration.

Variable E : env.
Variable S : Settings.

(** The iteration that starts in [w] raises [e]: in [get_buffer], in the
    decoding, or in [np.max] on an image without cells. *)
Definition iteration_fails (nc : nat) (w : world) (e : exn) : Prop :=
  next_buffer E (log w) = Raise e \/
  (exists it, next_buffer E (log w) = Ret it /\
              decode nc (BYTES_PER_PIXEL S) (BINNING S) it = Raise e) \/
  (exists it g, next_buffer E (log w) = Ret it /\
                decode nc (BYTES_PER_PIXEL S) (BINNING S) it = Ret g /\
                image_max g = None /\ e = ValueError).

(** Every step of the iteration that starts in [w] succeeds, and the
    image shown has maximum [m]. *)
Definition iteration_succeeds (nc : nat) (w : world) (m : Z) : Prop :=
  exists it g, next_buffer E (log w) = Ret it /\
               decode nc (BYTES_PER_PIXEL S) (BINNING S) it = Ret g /\
               image_max g = Some m.

(** The key [cv2.waitKey] returns at the end of that iteration. *)
Definition key_after (w : world) (m : Z) : Z :=
  pressed_key E (log w ++ iteration_calls m).

End Iteration.

(** ** Loading the settings, and cameras that enforce ranges *)

(** The body of [class Settings] runs when the module is loaded: line 20
    divides by the exposure time in seconds and raises [ZeroDivisionError]
    when that is zero, before [main] is called.  [FPS] is the value of that
    line when the division is defined. *)
Definition load_settings (s : Settings) : outcome Settings :=
  if Qeq_bool (EXP_TIME_US s * (1 # 1000000)) 0
  then Raise ZeroDivisionError
  else Ret s.

Definition exposure_settings (requested : Q) : Settings := {|
  EXP_TIME_US := requested;
  BINNING := 4;
  CAMERA_IP := "10.236.10.220";
  PIXEL_FORMAT := "Mono12";
  BYTES_PER_PIXEL := 2
|}.

(** [q] lies in the closed range [range]. *)
Definition in_range (range : Q * Q) (q : Q) : bool :=
  Qle_bool (fst range) q && Qle_bool q (snd range).

(** A camera that takes a new exposure time exactly when it lies in
    [range], and takes every other write. *)
Definition exposure_enforcing (E : env) (range : Q * Q) : Prop :=
  (forall c q, accepts E c "ExposureTime" (VFloat q) = in_range range q) /\
  (forall c p v, p <> "ExposureTime" -> accepts E c p v = true) /\
  (forall t p v, tl_accepts E t p v = true).

Definition exposure_range : Q * Q := (10 # 1, 100000 # 1)%Q.
Definition frame_rate_range : Q * Q := (1 # 1, 200 # 1)%Q.

(** Enforces the exposure range only. *)
Definition exposure_only_env : env := {|
  discover := fun _ => [0];
  ping_returncode := fun _ => 0%Z;
  accepts := fun _ p v =>
    if String.eqb p "ExposureTime"
    then match v with VFloat q => in_range exposure_range q | _ => true end
    else true;
  tl_accepts := fun _ _ _ => true;
  limits := fun _ _ => exposure_range;
  next_buffer := fun _ => Ret frame_2x1;
  pressed_key := fun _ => 27%Z
|}.

(** Enforces the exposure range and the frame-rate range. *)
Definition strict_env : env := {|
  discover := fun _ => [0];
  ping_returncode := fun _ => 0%Z;
  accepts := fun _ p v =>
    match v with
    | VFloat q =>
        if String.eqb p "ExposureTime" then in_range exposure_range q
        else if String.eqb p "AcquisitionFrameRate" then in_range frame_rate_range q
        else true
    | _ => true
    end;
  tl_accepts := fun _ _ _ => true;
  limits := fun _ p =>
    if String.eqb p "AcquisitionFrameRate" then frame_rate_range
    else exposure_range;
  next_buffer := fun _ => Ret frame_2x1;
  pressed_key := fun _ => 27%Z
|}.

(** ** Counting the calls of the loop *)




(** How many calls of [l] satisfy [f]. *)
Definition count (f : event -> bool) (l : list event) : nat :=
  length (List.filter f l).


(** * Properties *)

(** ** Decoding *)

Section Repeat.
Context {A : Type}.
Implicit Types (l : list A) (a : list (list A)).

Lemma lookup_repeat (x : A) k i : i < k -> repeat x k !! i = Some x.
Proof.
  revert i. induction k as [|k IH]; intros i Hi; [lia|].
  destruct i as [|i]; simpl; [done|]. apply IH. lia.
Qed.

Lemma lookup_flat_repeat l k i :
  0 < k -> flat_map (fun x => repeat x k) l !! i = l !! (i / k).
Proof.
  intros Hk. revert i. induction l as [|x l IH]; intros i; simpl.
  - by rewrite !lookup_nil.
  - destruct (decide (i < k)) as [Hlt|Hge].
    + rewrite lookup_app_l by (rewrite repeat_length; lia).
      rewrite Nat.div_small by lia. by apply lookup_repeat.
    + rewrite lookup_app_r by (rewrite repeat_length; lia).
      rewrite repeat_length, IH.
      replace i with ((i - k) + 1 * k) at 2 by lia.
      rewrite Nat.div_add by lia.
      by rewrite Nat.add_1_r.
Qed.

Lemma length_flat_repeat l k :
  length (flat_map (fun x => repeat x k) l) = length l * k.
Proof.
  apply flat_map_constant_length. intros x _. apply repeat_length.
Qed.

End Repeat.

Section Grid.
Context {A : Type}.
Implicit Types (a : list (list A)).

Lemma np_repeat_axis0_length a k :
  length (np_repeat_axis0 a k) = length a * k.
Proof. apply length_flat_repeat. Qed.

Lemma np_repeat_axis1_length a k :
  length (np_repeat_axis1 a k) = length a.
Proof. unfold np_repeat_axis1. by rewrite length_map. Qed.

Lemma np_repeat_axis0_rows a k w :
  Forall (fun row => length row = w) a ->
  Forall (fun row => length row = w) (np_repeat_axis0 a k).
Proof.
  intros Ha. unfold np_repeat_axis0. rewrite Forall_forall in *.
  intros row Hrow. apply list_elem_of_In, in_flat_map in Hrow.
  destruct Hrow as (r & Hr & Hin). apply repeat_spec in Hin. subst row.
  apply Ha. by apply list_elem_of_In.
Qed.

Lemma np_repeat_axis1_rows a k w :
  Forall (fun row => length row = w) a ->
  Forall (fun row => length row = w * k) (np_repeat_axis1 a k).
Proof.
  intros Ha. unfold np_repeat_axis1. apply Forall_fmap.
  eapply Forall_impl; [exact Ha|]. intros row Hrow; simpl.
  by rewrite length_flat_repeat, Hrow.
Qed.

Lemma grid_at_repeat a k i j :
  0 < k ->
  grid_at (np_repeat_axis1 (np_repeat_axis0 a k) k) i j = grid_at a (i / k) (j / k).
Proof.
  intros Hk. unfold grid_at, np_repeat_axis1, np_repeat_axis0.
  rewrite list_lookup_fmap, lookup_flat_repeat by done.
  destruct (a !! (i / k)) as [row|]; simpl; [|done].
  by apply lookup_flat_repeat.
Qed.

End Grid.

(** The 16-bit image before replication. *)
Lemma image_shape (it : item) :
  has_shape (map (fun r => map (fun c => cell_of it r c) (seq 0 (width it)))
                 (seq 0 (height it))) (height it) (width it).
Proof.
  split.
  - by rewrite length_map, length_seq.
  - apply Forall_fmap, Forall_forall. intros r _. simpl.
    by rewrite length_map, length_seq.
Qed.

Lemma image_at (it : item) i j :
  i < height it -> j < width it ->
  grid_at (map (fun r => map (fun c => cell_of it r c) (seq 0 (width it)))
               (seq 0 (height it))) i j = Some (cell_of it i j).
Proof.
  intros Hi Hj. unfold grid_at.
  rewrite list_lookup_fmap, lookup_seq_lt by done. simpl.
  by rewrite list_lookup_fmap, lookup_seq_lt.
Qed.

Lemma decode_two_bytes (K : Z) (it : item) :
  decode 3 2 K it =
  Ret (let image_16bit :=
         map (fun r => map (fun c => cell_of it r c) (seq 0 (width it)))
             (seq 0 (height it)) in
       if (1 <? K)%Z
       then np_repeat_axis1 (np_repeat_axis0 image_16bit (Z.to_nat K)) (Z.to_nat K)
       else image_16bit).
Proof.
  unfold decode.
  replace (3 * width it * height it <? height it * width it * 2) with false
    by (symmetry; apply Nat.ltb_ge; lia).
  replace (height it * width it * (2 / 2) =? height it * width it) with true
    by (symmetry; apply Nat.eqb_eq; simpl; lia).
  reflexivity.
Qed.

(** C5 (as amended).  With two-byte cells, whatever the geometry and the
    memory at the buffer's address, and for every binning factor [K >= 1],
    decoding returns a grid of [H*K] rows of [W*K] cells (so [H] rows of [W]
    cells when [K = 1]) whose cell [(i, j)] is cell [(i/K, j/K)] of the
    16-bit image: cells are replicated, never altered. *)
Theorem decode_shape_law (K : Z) (it : item) :
  (1 <= K)%Z ->
  exists g,
    decode 3 2 K it = Ret g /\
    has_shape g (height it * Z.to_nat K) (width it * Z.to_nat K) /\
    (K = 1%Z -> has_shape g (height it) (width it)) /\
    (forall i j, i < height it * Z.to_nat K -> j < width it * Z.to_nat K ->
       grid_at g i j = Some (cell_of it (i / Z.to_nat K) (j / Z.to_nat K))).
Proof.
  intros HK. rewrite decode_two_bytes. eexists; split; [reflexivity|].
  cbv zeta. destruct (image_shape it) as [Hlen Hrows].
  destruct (1 <? K)%Z eqn:HK1.
  - apply Z.ltb_lt in HK1. assert (0 < Z.to_nat K) by lia.
    split; [|split].
    + split.
      * by rewrite np_repeat_axis1_length, np_repeat_axis0_length, Hlen.
      * by apply np_repeat_axis1_rows, np_repeat_axis0_rows.
    + lia.
    + intros i j Hi Hj. rewrite grid_at_repeat by done.
      apply image_at.
      * apply Nat.Div0.div_lt_upper_bound. lia.
      * apply Nat.Div0.div_lt_upper_bound. lia.
  - apply Z.ltb_ge in HK1. assert (K = 1%Z) as -> by lia.
    change (Z.to_nat 1) with 1. rewrite !Nat.mul_1_r.
    split; [done|]. split; [done|].
    intros i j Hi Hj. rewrite !Nat.div_1_r. by apply image_at.
Qed.

(** The claim exercised on the program's binning factor. *)
Lemma decode_shape_law_witness :
  exists g,
    decode 3 2 4 frame_2x1 = Ret g /\
    has_shape g (height frame_2x1 * Z.to_nat 4) (width frame_2x1 * Z.to_nat 4) /\
    (4%Z = 1%Z -> has_shape g (height frame_2x1) (width frame_2x1)) /\
    (forall i j, i < height frame_2x1 * Z.to_nat 4 -> j < width frame_2x1 * Z.to_nat 4 ->
       grid_at g i j = Some (cell_of frame_2x1 (i / Z.to_nat 4) (j / Z.to_nat 4))).
Proof. apply (decode_shape_law 4 frame_2x1). lia. Defined.

(** C5, counterexample.  A valid buffer of one pixel and one byte per pixel
    (its length is [W*H*B]) is not decoded at all: the fixed 16-bit view
    fails. *)
Lemma decode_one_byte_pixels_fails :
  length (data frame_mono8) = width frame_mono8 * height frame_mono8 * 1 /\
  decode 3 1 1 frame_mono8 = Raise ValueError /\
  ~ (exists g, decode 3 1 1 frame_mono8 = Ret g /\
               has_shape g (height frame_mono8) (width frame_mono8)).
Proof.
  split; [reflexivity|]. split; [reflexivity|].
  intros (g & Hg & _). discriminate Hg.
Qed.

Lemma cell_of_agree (it it' : item) r c :
  width it' = width it ->
  (forall i, i < 2 * (width it * height it) -> pbytes it' i = pbytes it i) ->
  r < height it -> c < width it ->
  cell_of it' r c = cell_of it r c.
Proof.
  intros Hw Hmem Hr Hc. unfold cell_of, uint16_at. rewrite Hw.
  assert (r * width it + c < width it * height it) by nia.
  rewrite !Hmem by lia. reflexivity.
Qed.

(** C6 (as amended).  Decoding never looks at the byte length of the
    buffer: with two-byte cells it returns a grid for every buffer, and two
    buffers with the same geometry and the same first [2*W*H] bytes in memory
    decode alike, whatever their lengths. *)
Theorem decode_ignores_length (K : Z) (it : item) :
  (exists g, decode 3 2 K it = Ret g) /\
  (forall it', width it' = width it -> height it' = height it ->
     (forall i, i < 2 * (width it * height it) -> pbytes it' i = pbytes it i) ->
     decode 3 2 K it' = decode 3 2 K it).
Proof.
  split.
  - rewrite decode_two_bytes. eexists; reflexivity.
  - intros it' Hw Hh Hmem. rewrite !decode_two_bytes. cbv zeta.
    rewrite Hw, Hh.
    assert (map (fun r => map (fun c => cell_of it' r c) (seq 0 (width it)))
                (seq 0 (height it))
            = map (fun r => map (fun c => cell_of it r c) (seq 0 (width it)))
                  (seq 0 (height it))) as ->; [|reflexivity].
    apply map_ext_in. intros r Hr. apply in_seq in Hr.
    apply map_ext_in. intros c Hc. apply in_seq in Hc.
    apply cell_of_agree; try done; lia.
Qed.

(** C6, counterexamples.  A buffer longer, and one shorter, than [W*H*B]
    bytes: both are decoded, nothing is raised.  The short one takes its
    high byte from the memory behind the buffer. *)
Lemma decode_wrong_length_accepted :
  length (data frame_long) <> width frame_long * height frame_long * 2 /\
  decode 3 2 1 frame_long = Ret [[513%Z]] /\
  length (data frame_short) <> width frame_short * height frame_short * 2 /\
  decode 3 2 1 frame_short = Ret [[1793%Z]].
Proof. repeat split; try reflexivity; simpl; lia. Qed.

(** ** Connecting *)

Section Connect.
Variables (E : env) (S : Settings).
Hypothesis never_found : forall h, discover E h = [].

Lemma connect_loop_exhausts (tries_max remaining tries : nat) (w : world) :
  exists w' l,
    connect_loop E S tries_max remaining tries w = (Raise NoDeviceFound, w') /\
    log w' = log w ++ l /\
    List.filter is_attempt_or_probe l
      = concat (replicate remaining (attempt_round (CAMERA_IP S))) /\
    length (List.filter is_attempt l) = remaining /\
    length (List.filter is_probe l) = 2 * remaining /\
    Forall (fun ev => is_parameter_access ev = false) l /\
    cam w' = cam w /\ tl_stream w' = tl_stream w.
Proof.
  revert tries w. induction remaining as [|n IH]; intros tries w.
  - exists w, []. simpl. rewrite app_nil_r. by repeat split.
  - simpl. unfold bind at 1. unfold create_device at 1.
    rewrite never_found.
    unfold bind, print, ping_host, call, bind; simpl.
    match goal with |- context [connect_loop _ _ _ _ _ ?w1] =>
      destruct (IH (tries + 1) w1)
        as (w' & l & Hrun & Hlog & Hnet & Hatt & Hprobe & Hacc & Hcam & Htl)
    end.
    rewrite Hrun. eexists w', (_ :: _ :: _ :: _ :: _ :: _ :: l).
    split; [reflexivity|]. repeat split.
    + rewrite Hlog. simpl. rewrite <- !app_assoc. simpl. reflexivity.
    + simpl. by rewrite Hnet.
    + simpl. by rewrite Hatt.
    + simpl. rewrite Hprobe. lia.
    + by repeat constructor.
    + by rewrite Hcam.
    + by rewrite Htl.
Qed.

End Connect.

(** C3.  When no discovery attempt finds a device, [connect] with [N]
    attempts fails with [NoDeviceFound] after exactly [N] discovery attempts,
    each followed by exactly two probes ([2*N] probes in all), without any
    access to a camera parameter and without changing any node.  The
    program's function is [connect] with [N = 6]. *)
Theorem connect_retry_bound (E : env) (S : Settings) (N : nat) (w : world) :
  (forall h, discover E h = []) ->
  create_devices_with_tries_ip E S = connect E S 6 /\
  exists w' l,
    connect E S N w = (Raise NoDeviceFound, w') /\
    log w' = log w ++ l /\
    List.filter is_attempt_or_probe l
      = concat (replicate N (attempt_round (CAMERA_IP S))) /\
    length (List.filter is_attempt l) = N /\
    length (List.filter is_probe l) = 2 * N /\
    Forall (fun ev => is_parameter_access ev = false) l /\
    cam w' = cam w /\ tl_stream w' = tl_stream w.
Proof.
  intros Hnever. split; [reflexivity|].
  unfold connect, bind, print, call; simpl.
  match goal with |- context [connect_loop _ _ _ _ _ ?w1] =>
    destruct (connect_loop_exhausts E S Hnever N N 0 w1)
      as (w' & l & Hrun & Hlog & Hnet & Hatt & Hprobe & Hacc & Hcam & Htl)
  end.
  exists w', (Print (MsgText "CONNECTING TO CAMERA") :: Print MsgBlank
              :: Print (MsgText "Waiting for device to be connected...") :: l).
  rewrite Hrun.
  split; [reflexivity|]. repeat split.
  - rewrite Hlog. simpl. rewrite <- !app_assoc. reflexivity.
  - simpl. by rewrite Hnet.
  - simpl. by rewrite Hatt.
  - simpl. by rewrite Hprobe.
  - by repeat constructor.
  - by rewrite Hcam.
  - by rewrite Htl.
Qed.

(** The scenario of the program: six attempts, twelve probes. *)
Lemma connect_retry_bound_witness :
  create_devices_with_tries_ip unreachable_env program_settings
    = connect unreachable_env program_settings 6 /\
  exists w' l,
    connect unreachable_env program_settings 6 fresh_world
      = (Raise NoDeviceFound, w') /\
    log w' = log fresh_world ++ l /\
    List.filter is_attempt_or_probe l
      = concat (replicate 6 (attempt_round (CAMERA_IP program_settings))) /\
    length (List.filter is_attempt l) = 6 /\
    length (List.filter is_probe l) = 2 * 6 /\
    Forall (fun ev => is_parameter_access ev = false) l /\
    cam w' = cam fresh_world /\ tl_stream w' = tl_stream fresh_world.
Proof.
  apply (connect_retry_bound unreachable_env program_settings 6 fresh_world).
  intros h. reflexivity.
Defined.

(** ** Running the monad backwards *)

Lemma bind_ret_inv {A B} (m : M A) (f : A -> M B) w b w' :
  bind m f w = (Ret b, w') ->
  exists a w1, m w = (Ret a, w1) /\ f a w1 = (Ret b, w').
Proof.
  unfold bind. destruct (m w) as [[a|e|] w1]; intros H; try discriminate.
  by exists a, w1.
Qed.

Section Primitives.
Variables (E : env) (S : Settings).

Lemma call_inv ev w r w' :
  call ev w = (r, w') -> r = Ret tt /\ w' = record_event ev w.
Proof. unfold call. intros [= <- <-]. done. Qed.

Lemma get_node_ret names w nodes w' :
  get_node names w = (Ret nodes, w') ->
  nodes = names /\ Forall (fun n => is_Some (cam w !! n)) names /\
  w' = record_event (GetNode names) w.
Proof.
  unfold get_node. destruct (List.find _ names) as [n|] eqn:Hfind; [discriminate|].
  intros [= <- <-]. split; [done|]. split; [|done].
  apply Forall_forall. intros n Hn.
  apply list_elem_of_In in Hn.
  pose proof (find_none _ _ Hfind n Hn) as Hb. simpl in Hb.
  apply bool_decide_eq_false in Hb.
  by apply not_eq_None_Some.
Qed.

Lemma node_value_ret nodes p w v w' :
  node_value nodes p w = (Ret v, w') ->
  cam w !! p = Some v /\ w' = record_event (ReadValue p) w.
Proof.
  unfold node_value. case_bool_decide; [|discriminate].
  destruct (cam w !! p); [|discriminate]. by intros [= <- <-].
Qed.

Lemma set_node_value_ret nodes p v w u w' :
  set_node_value E nodes p v w = (Ret u, w') ->
  accepts E (cam w) p v = true /\
  w' = {| cam := <[p := v]> (cam w); tl_stream := tl_stream w;
          log := log w ++ [WriteValue p v true] |}.
Proof.
  unfold set_node_value. case_bool_decide; [|discriminate].
  destruct (accepts E (cam w) p v); [|discriminate]. by intros [= <-].
Qed.

Lemma node_min_ret nodes p w q w' :
  node_min E nodes p w = (Ret q, w') ->
  q = fst (limits E (cam w) p) /\ w' = record_event (ReadMin p) w.
Proof. unfold node_min. case_bool_decide; [|discriminate]. by intros [= <- <-]. Qed.

Lemma node_max_ret nodes p w q w' :
  node_max E nodes p w = (Ret q, w') ->
  q = snd (limits E (cam w) p) /\ w' = record_event (ReadMax p) w.
Proof. unfold node_max. case_bool_decide; [|discriminate]. by intros [= <- <-]. Qed.

Lemma set_tl_value_ret p v w u w' :
  set_tl_value E p v w = (Ret u, w') ->
  tl_accepts E (tl_stream w) p v = true /\
  w' = {| cam := cam w; tl_stream := <[p := v]> (tl_stream w);
          log := log w ++ [TLWrite p v true] |}.
Proof.
  unfold set_tl_value.
  destruct (tl_accepts E (tl_stream w) p v); [|discriminate]. by intros [= <-].
Qed.


Lemma store_initial_settings_ret nodes params acc w init w' :
  store_initial_settings nodes params acc w = (Ret init, w') ->
  w' = {| cam := cam w; tl_stream := tl_stream w;
          log := log w ++ map ReadValue params |} /\
  Forall (fun p => is_Some (cam w !! p)) params /\
  (forall p, init !! p = if bool_decide (p ∈ params) then cam w !! p else acc !! p).
Proof.
  revert acc w. induction params as [|q params IH]; intros acc w;
    cbn [store_initial_settings].
  - unfold ret. intros [= <- <-]. cbn [map]. rewrite app_nil_r.
    split; [by destruct w|]. split; [constructor|]. intros p.
    case_bool_decide as Hp; [|done]. by apply elem_of_nil in Hp.
  - intros H. apply bind_ret_inv in H as (v & w1 & Hread & H).
    apply node_value_ret in Hread as [Hv ->].
    apply IH in H as (-> & Hall & Hinit). cbn [cam tl_stream log record_event] in *.
    split; [by rewrite <- app_assoc|]. split; [constructor; eauto|].
    intros p. rewrite Hinit.
    destruct (decide (p = q)) as [->|Hne].
    + rewrite (bool_decide_true (q ∈ q :: params)) by apply list_elem_of_here.
      case_bool_decide; [done|]. by rewrite lookup_insert_eq.
    + rewrite lookup_insert_ne by done.
      case_bool_decide as Hp.
      * rewrite bool_decide_true; [done|]. by apply list_elem_of_further.
      * rewrite bool_decide_false; [done|].
        intros [?|?]%elem_of_cons; done.
Qed.

Lemma optional_print_inv (b : bool) m w r w' :
  (if b then print m else ret tt) w = (r, w') ->
  r = Ret tt /\
  w' = {| cam := cam w; tl_stream := tl_stream w;
          log := log w ++ (if b then [Print m] else []) |}.
Proof.
  destruct b; unfold print, call, ret, record_event; intros [= <- <-]; [done|].
  rewrite app_nil_r. by destruct w.
Qed.

Lemma ret_ret_inv {A} (a b : A) w w' :
  ret a w = (Ret b, w') -> b = a /\ w' = w.
Proof. unfold ret. intros [= <- <-]. done. Qed.

Ltac step H :=
  let a := fresh "a" in let w1 := fresh "w" in let H1 := fresh "Hstep" in
  lazymatch type of H with bind _ _ _ = _ => idtac end;
  apply bind_ret_inv in H as (a & w1 & H1 & H);
  unfold print in H1;
  first
    [ apply set_node_value_ret in H1 as [? ->]
    | apply node_value_ret in H1 as [? ->]
    | apply node_min_ret in H1 as [-> ->]
    | apply node_max_ret in H1 as [-> ->]
    | apply set_tl_value_ret in H1 as [? ->]
    | apply call_inv in H1 as [_ ->]
    | apply optional_print_inv in H1 as [_ ->]
    | apply store_initial_settings_ret in H1 as (-> & ? & ?) ];
  cbn [cam tl_stream log record_event] in *.

(** A [setup] that returns has made exactly the calls of [setup_trace],
    has captured the values the nodes held after the pixel format was
    written, and leaves the configured values in the camera. *)
Lemma setup_ret w st w' :
  setup E S w = (Ret st, w') ->
  exists init,
    st = (3, selected_parameters, selected_parameters, init) /\
    (forall p, init !! p =
       if bool_decide (p ∈ selected_parameters)
       then cam_with_format S (cam w) !! p else None) /\
    Forall (fun p => is_Some (init !! p)) selected_parameters /\
    log w' = log w ++ setup_trace E S (cam w) /\
    cam w' = cam_configured E S (cam w) /\
    tl_stream w' = tl_configured (tl_stream w).
Proof.
  unfold setup. intros H.
  apply bind_ret_inv in H as (nodes & w1 & Hn & H).
  apply get_node_ret in Hn as (-> & Hpresent & ->).
  repeat step H.
  apply ret_ret_inv in H as [-> ->].
  repeat match goal with
  | Hr : <[_:=_]> _ !! _ = Some _ |- _ =>
      first [ rewrite lookup_insert_eq in Hr; injection Hr as <-
            | rewrite lookup_insert_ne in Hr by (intros [=]) ]
  end.
  clear Hpresent.
  repeat match goal with Ha : accepts _ _ _ _ = true |- _ => clear Ha end.
  repeat match goal with Ha : tl_accepts _ _ _ _ = true |- _ => clear Ha end.
  eexists; split; [reflexivity|].
  cbn [cam tl_stream log].
  split.
  { intros p. rewrite H2. unfold cam_with_format. by rewrite lookup_empty. }
  split.
  { apply Forall_forall. intros p Hp. rewrite H2.
    rewrite bool_decide_true by done.
    rewrite Forall_forall in H1. by apply H1. }
  split.
  { unfold setup_trace, applied_exposure, exposure_limits,
      cam_before_exposure, cam_with_rate, cam_with_format.
    cbv zeta. rewrite <- !app_assoc. reflexivity. }
  split; reflexivity.
Qed.
End Primitives.

(** ** Writing the snapshot back *)

Section Restore.
Variable E : env.

(** What one write does, whatever its outcome. *)
Lemma set_node_value_cases nodes p v w r w' :
  set_node_value E nodes p v w = (r, w') ->
  (r = Ret tt /\ (p ∈ nodes) /\ accepts E (cam w) p v = true /\
   w' = {| cam := <[p := v]> (cam w); tl_stream := tl_stream w;
           log := log w ++ [WriteValue p v true] |}) \/
  (r = Raise (WriteRejected p) /\ (p ∈ nodes) /\ accepts E (cam w) p v = false /\
   w' = record_event (WriteValue p v false) w) \/
  (r = Raise (KeyError p) /\ (p ∉ nodes) /\ w' = w).
Proof.
  unfold set_node_value. case_bool_decide as Hp.
  - destruct (accepts E (cam w) p v) eqn:Hacc; intros [= <- <-].
    + left. done.
    + right; left. done.
  - intros [= <- <-]. right; right. done.
Qed.

(** The write-back loop goes through the parameters in order and stops at
    the first one it cannot write. *)
Lemma write_back_outcome nodes params init w r w' :
  write_back E nodes params init w = (r, w') ->
  exists l,
    log w' = log w ++ l /\ tl_stream w' = tl_stream w /\ writes_from init l /\
    match r with
    | Ret _ => write_attempts l = accepted_writes params
    | Raise e =>
        exists pre p post, params = pre ++ p :: post /\
          ((e = WriteRejected p /\
            write_attempts l = accepted_writes pre ++ [(p, false)]) \/
           (e = KeyError p /\ write_attempts l = accepted_writes pre))
    | Diverge => False
    end.
Proof.
  revert w. induction params as [|q params IH]; intros w; cbn [write_back].
  - unfold ret. intros [= <- <-]. exists []. rewrite app_nil_r.
    repeat split. constructor.
  - destruct (init !! q) as [v|] eqn:Hq.
    + unfold bind. destruct (set_node_value E nodes q v w) as [r1 w1] eqn:Hset.
      apply set_node_value_cases in Hset
        as [(-> & _ & _ & ->)|[(-> & _ & _ & ->)|(-> & _ & ->)]].
      * intros Hrest. apply IH in Hrest as (l & Hlog & Htl & Hfrom & Hres).
        cbn [log tl_stream] in *.
        exists (WriteValue q v true :: l). rewrite Hlog, <- app_assoc.
        split; [done|]. split; [done|].
        split; [constructor; [eauto|done]|].
        destruct r as [u|e|]; [| |done].
        -- change (write_attempts (WriteValue q v true :: l))
             with ((q, true) :: write_attempts l). by rewrite Hres.
        -- destruct Hres as (pre & p & post & -> & Hcase).
           exists (q :: pre), p, post. split; [done|].
           destruct Hcase as [[-> Hw]|[-> Hw]]; [left|right];
             (split; [done|]);
             change (write_attempts (WriteValue q v true :: l))
               with ((q, true) :: write_attempts l); by rewrite Hw.
      * intros [= <- <-]. exists [WriteValue q v false].
        split; [done|]. split; [done|].
        split; [constructor; [eauto|constructor]|].
        exists [], q, params. split; [done|]. left. done.
      * intros [= <- <-]. exists []. rewrite app_nil_r.
        split; [done|]. split; [done|]. split; [constructor|].
        exists [], q, params. split; [done|]. right. done.
    + unfold raise. intros [= <- <-]. exists []. rewrite app_nil_r.
      split; [done|]. split; [done|]. split; [constructor|].
      exists [], q, params. split; [done|]. right. done.
Qed.


End Restore.

(** C8 (as amended).  [restore_initial_settings] prints its banner and
    writes the snapshot values back in the order of the list, each to its own
    parameter.  It writes all of them when no write fails; a write that fails
    is not caught: the exception leaves the function at once and the
    parameters after it are not written. *)
Theorem restore_stops_at_first_failure
    (E : env) (nodes params : list string) (init : gmap string value)
    (w : world) (r : outcome unit) (w' : world) :
  restore_initial_settings E nodes params init w = (r, w') ->
  exists l,
    log w' = log w ++ Print MsgRestoring :: l /\ writes_from init l /\
    match r with
    | Ret _ => write_attempts l = accepted_writes params
    | Raise e =>
        exists pre p post, params = pre ++ p :: post /\
          ((e = WriteRejected p /\
            write_attempts l = accepted_writes pre ++ [(p, false)]) \/
           (e = KeyError p /\ write_attempts l = accepted_writes pre))
    | Diverge => False
    end.
Proof.
  unfold restore_initial_settings, bind, print, call. intros H.
  apply write_back_outcome in H as (l & Hlog & _ & Hfrom & Hres).
  exists l. cbn [log record_event] in Hlog. rewrite <- app_assoc in Hlog.
  done.
Qed.

Lemma restore_stops_at_first_failure_witness :
  exists l,
    log (snd locked_restore) = log fresh_world ++ Print MsgRestoring :: l /\
    writes_from factory_cam l /\
    exists pre p post, selected_parameters = pre ++ p :: post /\
      ((WriteRejected "ExposureTime" = WriteRejected p /\
        write_attempts l = accepted_writes pre ++ [(p, false)]) \/
       (WriteRejected "ExposureTime" = KeyError p /\
        write_attempts l = accepted_writes pre)).
Proof.
  apply (restore_stops_at_first_failure locking_env selected_parameters
           selected_parameters factory_cam fresh_world
           (Raise (WriteRejected "ExposureTime")) (snd locked_restore)).
  vm_compute. reflexivity.
Defined.

(** C8, counterexample.  The third write of a restore fails: nothing is
    logged or caught, the function raises, and the seven parameters after it
    are never written, although the camera would have taken each of them. *)
Lemma restore_aborts_on_failed_write :
  fst locked_restore = Raise (WriteRejected "ExposureTime") /\
  write_attempts (log (snd locked_restore))
    = [("PixelFormat", true); ("ExposureAuto", true); ("ExposureTime", false)] /\
  forallb (fun p => negb (exposure_locked (cam (snd locked_restore)) p))
          (drop 3 selected_parameters) = true /\
  length (write_attempts (log (snd locked_restore))) < length selected_parameters.
Proof. vm_compute. repeat split. lia. Qed.

(** ** What a piece of the program may call *)

Section Emits.
Context (P : event -> bool).

Lemma emits_ret {A} (a : A) : emits P (ret a).
Proof. intros w r w' [= <- <-]. exists []. by rewrite app_nil_r. Qed.

Lemma emits_raise {A} (e : exn) : emits P (@raise A e).
Proof. intros w r w' [= <- <-]. exists []. by rewrite app_nil_r. Qed.

Lemma emits_diverge {A} : emits P (@diverge A).
Proof. intros w r w' [= <- <-]. exists []. by rewrite app_nil_r. Qed.

Lemma emits_lift {A} (o : outcome A) : emits P (lift o).
Proof. intros w r w' [= <- <-]. exists []. by rewrite app_nil_r. Qed.

Lemma emits_bind {A B} (m : M A) (f : A -> M B) :
  emits P m -> (forall a, emits P (f a)) -> emits P (bind m f).
Proof.
  intros Hm Hf w r w'. unfold bind.
  destruct (m w) as [[a|e|] w1] eqn:Hmw; intros Hrun.
  - destruct (Hm _ _ _ Hmw) as (l1 & Hl1 & HP1).
    destruct (Hf a _ _ _ Hrun) as (l2 & Hl2 & HP2).
    exists (l1 ++ l2). rewrite Hl2, Hl1, <- app_assoc.
    split; [done|]. rewrite forallb_app, HP1, HP2. done.
  - injection Hrun as <- <-. eauto.
  - injection Hrun as <- <-. eauto.
Qed.

Lemma emits_try_finally {A} (body : M A) (fin : M unit) :
  emits P body -> emits P fin -> emits P (try_finally body fin).
Proof.
  intros Hb Hf w r w'. unfold try_finally.
  destruct (body w) as [rb w1] eqn:Hbw.
  destruct (Hb _ _ _ Hbw) as (l1 & Hl1 & HP1).
  assert (forall r2 w2, fin w1 = (r2, w2) ->
            exists l, log w2 = log w ++ l /\ forallb P l = true) as Hfin.
  { intros r2 w2 Hfw. destruct (Hf _ _ _ Hfw) as (l2 & Hl2 & HP2).
    exists (l1 ++ l2). rewrite Hl2, Hl1, <- app_assoc.
    split; [done|]. rewrite forallb_app, HP1, HP2. done. }
  destruct rb as [a|e|].
  - destruct (fin w1) as [[u|e2|] w2] eqn:Hfw; intros [= <- <-]; eauto.
  - destruct (fin w1) as [[u|e2|] w2] eqn:Hfw; intros [= <- <-]; eauto.
  - intros [= <- <-]. eauto.
Qed.

Lemma emits_event {A} (ev : event) (f : world -> outcome A) :
  P ev = true -> emits P (fun w => (f w, record_event ev w)).
Proof.
  intros HP w r w' [= <- <-]. exists [ev]. split; [done|].
  cbn. by rewrite HP.
Qed.

Lemma emits_call ev : P ev = true -> emits P (call ev).
Proof. intros HP. by apply (emits_event ev (fun _ => Ret tt)). Qed.

Lemma emits_print m : P (Print m) = true -> emits P (print m).
Proof. apply emits_call. Qed.

End Emits.

Section EmitsProgram.
Variables (E : env) (S : Settings).
Context (P : event -> bool).

Lemma emits_create_device : P CreateDevice = true -> emits P (create_device E).
Proof. intros HP. by apply (emits_event P CreateDevice). Qed.

Lemma emits_ping_host ip :
  P (RunPing ip 3) = true -> (forall rc, P (Print (MsgPingFinished rc)) = true) ->
  emits P (ping_host E ip).
Proof.
  intros H1 H2. apply emits_bind.
  - by apply (emits_event P (RunPing ip 3)).
  - intros rc. by apply emits_print.
Qed.

Lemma emits_get_buffer : P GetBuffer = true -> emits P (get_buffer E).
Proof. intros HP. by apply (emits_event P GetBuffer). Qed.

Lemma emits_wait_key : P WaitKey = true -> emits P (wait_key E).
Proof. intros HP. by apply (emits_event P WaitKey). Qed.

Lemma emits_np_max image : emits P (np_max image).
Proof.
  unfold np_max. destruct (concat image); [apply emits_raise|apply emits_ret].
Qed.

Lemma emits_get_node names :
  P (GetNode names) = true -> emits P (get_node names).
Proof.
  intros HP w r w'. unfold get_node.
  destruct (List.find _ names); intros [= <- <-];
    (exists [GetNode names]; split; [done|]; cbn; by rewrite HP).
Qed.

Lemma emits_node_value nodes p :
  P (ReadValue p) = true -> emits P (node_value nodes p).
Proof.
  intros HP w r w'. unfold node_value. case_bool_decide.
  - destruct (cam w !! p); intros [= <- <-];
      (exists [ReadValue p]; split; [done|]; cbn; by rewrite HP).
  - intros [= <- <-]. exists []. by rewrite app_nil_r.
Qed.

Lemma emits_set_node_value nodes p v :
  (forall b, P (WriteValue p v b) = true) -> emits P (set_node_value E nodes p v).
Proof.
  intros HP w r w'. unfold set_node_value. case_bool_decide.
  - destruct (accepts E (cam w) p v); intros [= <- <-].
    + exists [WriteValue p v true]. split; [done|]. cbn. by rewrite HP.
    + exists [WriteValue p v false]. split; [done|]. cbn. by rewrite HP.
  - intros [= <- <-]. exists []. by rewrite app_nil_r.
Qed.

Lemma emits_set_tl_value p v :
  (forall b, P (TLWrite p v b) = true) -> emits P (set_tl_value E p v).
Proof.
  intros HP w r w'. unfold set_tl_value.
  destruct (tl_accepts E (tl_stream w) p v); intros [= <- <-].
  - exists [TLWrite p v true]. split; [done|]. cbn. by rewrite HP.
  - exists [TLWrite p v false]. split; [done|]. cbn. by rewrite HP.
Qed.

Lemma emits_node_min nodes p :
  P (ReadMin p) = true -> emits P (node_min E nodes p).
Proof.
  intros HP w r w'. unfold node_min. case_bool_decide; intros [= <- <-].
  - exists [ReadMin p]. split; [done|]. cbn. by rewrite HP.
  - exists []. by rewrite app_nil_r.
Qed.

Lemma emits_node_max nodes p :
  P (ReadMax p) = true -> emits P (node_max E nodes p).
Proof.
  intros HP w r w'. unfold node_max. case_bool_decide; intros [= <- <-].
  - exists [ReadMax p]. split; [done|]. cbn. by rewrite HP.
  - exists []. by rewrite app_nil_r.
Qed.

End EmitsProgram.

(** ** Nothing of the teardown happens before the [finally] block *)

Section NoEarlyTeardown.
Variables (E : env) (S : Settings).

Ltac quiet_step :=
  lazymatch goal with
  | |- emits _ (bind _ _) => apply emits_bind; [|intros ?]
  | |- emits _ (ret _) => apply emits_ret
  | |- emits _ (raise _) => apply emits_raise
  | |- emits _ (lift _) => apply emits_lift
  | |- emits _ (np_max _) => apply emits_np_max
  | |- emits _ (print _) => apply emits_print; reflexivity
  | |- emits _ (call _) => apply emits_call; reflexivity
  | |- emits _ (create_device _) => apply emits_create_device; reflexivity
  | |- emits _ (ping_host _ _) =>
      apply emits_ping_host; [reflexivity|intros ?; reflexivity]
  | |- emits _ (get_buffer _) => apply emits_get_buffer; reflexivity
  | |- emits _ (wait_key _) => apply emits_wait_key; reflexivity
  | |- emits _ (get_node _) => apply emits_get_node; reflexivity
  | |- emits _ (node_value _ _) => apply emits_node_value; reflexivity
  | |- emits _ (node_min _ _ _) => apply emits_node_min; reflexivity
  | |- emits _ (node_max _ _ _) => apply emits_node_max; reflexivity
  | |- emits _ (set_node_value _ _ _ _) =>
      apply emits_set_node_value; intros ?; reflexivity
  | |- emits _ (set_tl_value _ _ _) =>
      apply emits_set_tl_value; intros ?; reflexivity
  end.

Ltac quiet := repeat quiet_step.

Lemma connect_loop_quiet tries_max remaining tries :
  emits not_teardown (connect_loop E S tries_max remaining tries).
Proof.
  revert tries. induction remaining as [|n IH]; intros tries;
    cbn [connect_loop]; [apply emits_raise|].
  apply emits_bind; [quiet|]. intros [|d devices]; quiet. apply IH.
Qed.

Lemma store_initial_settings_quiet nodes params acc :
  emits not_teardown (store_initial_settings nodes params acc).
Proof.
  revert acc. induction params as [|p params IH]; intros acc;
    cbn [store_initial_settings]; quiet. apply IH.
Qed.

Lemma setup_quiet : emits not_teardown (setup E S).
Proof.
  unfold setup.
  apply emits_bind; [quiet|]; intros nodes.
  apply emits_bind; [quiet|]; intros _.
  apply emits_bind; [apply store_initial_settings_quiet|]; intros init.
  quiet. destruct (exposure_warning _ _ _); quiet.
Qed.

Lemma prelude_quiet : emits not_teardown (prelude E S).
Proof.
  unfold prelude, create_devices_with_tries_ip, connect, save_features_to_file.
  quiet.
  - apply connect_loop_quiet.
  - apply setup_quiet.
Qed.

Lemma acquisition_loop_quiet fuel nc :
  emits not_teardown (acquisition_loop E S fuel nc).
Proof.
  induction fuel as [|fuel IH]; cbn [acquisition_loop]; [apply emits_diverge|].
  quiet. destruct (_ =? _)%Z; [apply emits_ret|apply IH].
Qed.

Lemma with_stream_quiet fuel nc :
  emits not_teardown (with_stream (acquisition_loop E S fuel nc)).
Proof.
  unfold with_stream. apply emits_bind; [quiet|]; intros _.
  apply emits_try_finally; [apply acquisition_loop_quiet|quiet].
Qed.

End NoEarlyTeardown.

Lemma quiet_trace_has_no_teardown (l : list event) :
  forallb not_teardown l = true ->
  List.filter is_restore l = [] /\ List.filter is_disconnect l = [].
Proof.
  induction l as [|ev l IH]; [done|]. cbn [forallb].
  intros [Hev Hl]%andb_true_iff. destruct (IH Hl) as [IH1 IH2].
  destruct ev as [| |m| | | | | | | | | | | | | | | | | | | |];
    try destruct m; try discriminate Hev; cbn; by rewrite ?IH1, ?IH2.
Qed.

(** C10.  When the connection succeeds and the part of [main] before the
    [try] statement raises (in this model only [setup] can), [main] raises the
    same exception at the same point: no call of the [finally] block is made,
    so the settings are not restored and the device is not destroyed. *)
Theorem setup_failure_skips_teardown
    (E : env) (S : Settings) (fuel : nat) (w0 : world)
    (devices : list nat) (wc : world) (e : exn) (w' : world) :
  create_devices_with_tries_ip E S w0 = (Ret devices, wc) ->
  prelude E S w0 = (Raise e, w') ->
  main E S fuel w0 = (Raise e, w') /\
  exists l, log w' = log w0 ++ l /\
            forallb not_teardown l = true /\
            List.filter is_restore l = [] /\
            List.filter is_disconnect l = [].
Proof.
  intros _ Hpre. split.
  - unfold main, bind. by rewrite Hpre.
  - destruct (prelude_quiet E S _ _ _ Hpre) as (l & Hlog & Hquiet).
    exists l. split; [done|]. split; [done|].
    by apply quiet_trace_has_no_teardown.
Qed.

Lemma setup_failure_skips_teardown_witness :
  main quiet_env program_settings 1 bare_world
    = (Raise (KeyError "PixelFormat"),
       snd (prelude quiet_env program_settings bare_world)) /\
  exists l,
    log (snd (prelude quiet_env program_settings bare_world))
      = log bare_world ++ l /\
    forallb not_teardown l = true /\
    List.filter is_restore l = [] /\
    List.filter is_disconnect l = [].
Proof.
  apply (setup_failure_skips_teardown quiet_env program_settings 1 bare_world
           [0] (snd (create_devices_with_tries_ip quiet_env program_settings
                       bare_world))).
  - vm_compute. reflexivity.
  - vm_compute. reflexivity.
Defined.

(** ** The [finally] block *)

Lemma writes_from_filters init l :
  writes_from init l ->
  List.filter is_restore l = [] /\ List.filter is_disconnect l = [].
Proof.
  induction 1 as [|ev l (p & v & b & -> & _) _ [IH1 IH2]]; [done|].
  cbn. by rewrite IH1, IH2.
Qed.

Lemma rejected_writes_length l :
  length (List.filter is_rejected_write l)
  = length (List.filter (fun a : string * bool => negb (snd a)) (write_attempts l)).
Proof.
  induction l as [|ev l IH]; [done|].
  destruct ev; try exact IH. destruct accepted; cbn; by rewrite ?IH.
Qed.

Lemma accepted_writes_none_rejected params :
  List.filter (fun a : string * bool => negb (snd a)) (accepted_writes params) = [].
Proof. induction params as [|p params IH]; [done|]. exact IH. Qed.

Lemma all_accepted_no_rejection l params :
  write_attempts l = accepted_writes params ->
  List.filter is_rejected_write l = [].
Proof.
  intros Hw. apply length_zero_iff_nil.
  by rewrite rejected_writes_length, Hw, accepted_writes_none_rejected.
Qed.

Lemma one_rejected_has_rejection l pre p :
  write_attempts l = accepted_writes pre ++ [(p, false)] ->
  List.filter is_rejected_write l <> [].
Proof.
  intros Hw Hnil. apply (f_equal length) in Hnil.
  rewrite rejected_writes_length, Hw, List.filter_app,
    accepted_writes_none_rejected in Hnil. discriminate Hnil.
Qed.

Section Teardown.
Variable E : env.

(** With every parameter among the nodes and in the snapshot, the
    write-back never fails on a key. *)
Lemma write_back_no_key_error nodes params init w k w' :
  Forall (fun p => p ∈ nodes /\ is_Some (init !! p)) params ->
  write_back E nodes params init w <> (Raise (KeyError k), w').
Proof.
  intros Hall. revert w. induction Hall as [|q params [Hin [v Hv]] _ IH];
    intros w; cbn [write_back]; [discriminate|].
  rewrite Hv. unfold bind.
  destruct (set_node_value E nodes q v w) as [r1 w1] eqn:Hset.
  apply set_node_value_cases in Hset
    as [(-> & _ & _ & ->)|[(-> & _ & _ & ->)|(-> & Hnot & ->)]];
    [apply IH|discriminate|done].
Qed.

(** The [finally] block: the stream is stopped, the restore runs, and the
    three closing calls follow exactly when the restore returned. *)
Lemma teardown_outcome nodes params init w r w' :
  Forall (fun p => p ∈ nodes /\ is_Some (init !! p)) params ->
  teardown E nodes params init w = (r, w') ->
  exists l,
    writes_from init l /\
    ((r = Ret tt /\ List.filter is_rejected_write l = [] /\
      log w' = log w ++ StopStream :: Print MsgRestoring :: l ++ disconnect_calls) \/
     (exists p, r = Raise (WriteRejected p) /\
                List.filter is_rejected_write l <> [] /\
                log w' = log w ++ StopStream :: Print MsgRestoring :: l)).
Proof.
  intros Hall. unfold teardown. unfold bind at 1. unfold call at 1.
  unfold bind at 1.
  destruct (restore_initial_settings E nodes params init (record_event StopStream w))
    as [rr wr] eqn:Hrest.
  pose proof Hrest as Hkey.
  apply restore_stops_at_first_failure in Hrest as (l & Hlog & Hfrom & Hres).
  cbn [log record_event] in Hlog. rewrite <- app_assoc in Hlog.
  destruct rr as [u|e|]; [| |done].
  - unfold bind, call. intros [= <- <-]. exists l. split; [done|]. left.
    split; [by destruct u|]. split; [by eapply all_accepted_no_rejection|].
    cbn [log record_event]. rewrite Hlog, <- !app_assoc. reflexivity.
  - intros [= <- <-]. exists l. split; [done|]. right.
    destruct Hres as (pre & p & post & -> & [[-> Hw]|[-> Hw]]).
    + exists p. split; [done|]. split; [by eapply one_rejected_has_rejection|done].
    + exfalso. unfold restore_initial_settings, bind, print, call in Hkey.
      by eapply write_back_no_key_error in Hkey.
Qed.

End Teardown.

(** ** The session *)

Lemma prelude_ret E S w0 st w1 :
  prelude E S w0 = (Ret st, w1) ->
  exists init,
    st = (3, selected_parameters, selected_parameters, init) /\
    Forall (fun p => is_Some (init !! p)) selected_parameters.
Proof.
  unfold prelude. intros H.
  apply bind_ret_inv in H as (devices & wa & _ & H).
  apply bind_ret_inv in H as (? & wb & _ & H).
  apply bind_ret_inv in H as (? & wc & _ & H).
  apply bind_ret_inv in H as (? & wd & _ & H).
  apply bind_ret_inv in H as (st' & we & Hsetup & H).
  apply bind_ret_inv in H as (? & wf & _ & H).
  apply ret_ret_inv in H as [-> _].
  apply setup_ret in Hsetup as (init & -> & _ & Hsome & _).
  eauto.
Qed.

Lemma selected_parameters_ready (init : gmap string value) :
  Forall (fun p => is_Some (init !! p)) selected_parameters ->
  Forall (fun p => p ∈ selected_parameters /\ is_Some (init !! p))
         selected_parameters.
Proof.
  intros H. rewrite Forall_forall in *. intros p Hp. split; [done|]. by apply H.
Qed.

(** C1 (as amended).  In every run in which [main] reaches its [try]
    statement and the loop then ends (ESC, an exception of the loop, an
    interrupt), the trace after the setup is the trace of the streaming block,
    free of any teardown call, followed by the [finally] block.  In that
    block the restore is started exactly once.  When no write of the restore
    is rejected, the device is destroyed exactly once, after the restore;
    when one is rejected, the device is not destroyed. *)
Theorem teardown_after_loop
    (E : env) (S : Settings) (fuel : nat) (w0 : world)
    (st : nat * list string * list string * gmap string value)
    (w1 : world) (r : outcome unit) (w' : world) :
  prelude E S w0 = (Ret st, w1) ->
  main E S fuel w0 = (r, w') ->
  r <> Diverge ->
  exists body tear,
    log w' = log w1 ++ body ++ tear /\
    forallb not_teardown body = true /\
    length (List.filter is_restore tear) = 1 /\
    (List.filter is_rejected_write tear = [] ->
       length (List.filter is_disconnect tear) = 1 /\
       exists t1 t2 t3, tear = t1 ++ Print MsgRestoring :: t2 ++ DestroyDevice :: t3) /\
    (List.filter is_rejected_write tear <> [] ->
       List.filter is_disconnect tear = []).
Proof.
  intros Hpre Hmain Hend.
  destruct (prelude_ret _ _ _ _ _ Hpre) as (init & -> & Hsome).
  apply selected_parameters_ready in Hsome.
  unfold main, bind in Hmain. rewrite Hpre in Hmain.
  unfold streaming, try_finally in Hmain.
  destruct (with_stream (acquisition_loop E S fuel 3) w1) as [rb wb] eqn:Hbody.
  destruct (with_stream_quiet E S _ _ _ _ _ Hbody) as (body & Hblog & Hquiet).
  destruct (teardown E selected_parameters selected_parameters init wb)
    as [rt wt] eqn:Htear.
  assert (w' = wt /\ rb <> Diverge) as [-> _].
  { destruct rb as [ub|eb|], rt as [ut|et|]; cbn in Hmain;
      injection Hmain as Hr Hw; subst r w'; try done; by destruct Hend. }
  clear Hmain.
  apply teardown_outcome in Htear as (l & Hfrom & Hcase); [|done].
  destruct (writes_from_filters _ _ Hfrom) as [Hnr Hnd].
  destruct Hcase as [(-> & Hnone & Hlog)|(p & -> & Hsome' & Hlog)].
  - exists body, (StopStream :: Print MsgRestoring :: l ++ disconnect_calls).
    rewrite Hlog, Hblog, <- app_assoc.
    split; [done|]. split; [done|].
    cbn [List.filter is_restore is_disconnect is_rejected_write].
    rewrite !List.filter_app, Hnr, Hnd, Hnone. cbn.
    split; [done|]. split; [|done].
    intros _. split; [done|].
    exists [StopStream], (l ++ [DestroyAllWindows]), [Print MsgDestroyed].
    unfold disconnect_calls. cbn. by rewrite <- app_assoc.
  - exists body, (StopStream :: Print MsgRestoring :: l).
    rewrite Hlog, Hblog, <- app_assoc.
    split; [done|]. split; [done|].
    cbn [List.filter is_restore is_disconnect is_rejected_write].
    rewrite Hnr, Hnd. cbn.
    split; [done|]. split; [|done]. intros Hnil. by destruct Hsome'.
Qed.

Lemma teardown_after_loop_witness :
  exists body tear,
    log (snd quiet_session)
      = log (snd (prelude quiet_env program_settings fresh_world)) ++ body ++ tear /\
    forallb not_teardown body = true /\
    length (List.filter is_restore tear) = 1 /\
    (List.filter is_rejected_write tear = [] ->
       length (List.filter is_disconnect tear) = 1 /\
       exists t1 t2 t3, tear = t1 ++ Print MsgRestoring :: t2 ++ DestroyDevice :: t3) /\
    (List.filter is_rejected_write tear <> [] ->
       List.filter is_disconnect tear = []).
Proof.
  apply (teardown_after_loop quiet_env program_settings 1 fresh_world
           (3, selected_parameters, selected_parameters,
            cam_with_format program_settings factory_cam)
           (snd (prelude quiet_env program_settings fresh_world))
           (Ret tt) (snd quiet_session)).
  - vm_compute. reflexivity.
  - vm_compute. reflexivity.
  - discriminate.
Defined.

(** C1, counterexample.  ESC is pressed after the first frame, the loop
    ends normally, and the restore puts automatic exposure back before the
    exposure time: the camera rejects that write, the exception leaves the
    [finally] block, and the device is never destroyed. *)
Lemma disconnect_skipped_when_restore_fails :
  fst locked_session = Raise (WriteRejected "ExposureTime") /\
  fst locked_session <> Diverge /\
  In StartStream (log (snd locked_session)) /\
  length (List.filter is_restore (log (snd locked_session))) = 1 /\
  length (List.filter is_disconnect (log (snd locked_session))) = 0.
Proof.
  vm_compute. repeat split; try discriminate; auto 100.
Qed.

(** ** Errors inside the loop *)

Section LoopErrors.
Variables (E : env) (S : Settings).

(** An iteration whose [get_buffer] raises. *)
Lemma acquire_error_ends_loop fuel nc w e :
  next_buffer E (log w) = Raise e ->
  acquisition_loop E S (Datatypes.S fuel) nc w = (Raise e, record_event GetBuffer w).
Proof.
  intros Hbuf. cbn [acquisition_loop]. unfold bind at 1, get_buffer.
  by rewrite Hbuf.
Qed.

(** An iteration whose decoding raises. *)
Lemma decode_error_ends_loop fuel nc w it e :
  next_buffer E (log w) = Ret it ->
  decode nc (BYTES_PER_PIXEL S) (BINNING S) it = Raise e ->
  acquisition_loop E S (Datatypes.S fuel) nc w
  = (Raise e, record_event RequeueBuffer
                (record_event CopyBuffer (record_event GetBuffer w))).
Proof.
  intros Hbuf Hdec. cbn [acquisition_loop]. unfold bind at 1, get_buffer.
  rewrite Hbuf. unfold bind, call, lift. by rewrite Hdec.
Qed.

(** The [finally] block returns or raises; it does not hang. *)
Lemma teardown_ends nodes params init w :
  fst (teardown E nodes params init w) <> Diverge.
Proof.
  unfold teardown. unfold bind at 1. unfold call at 1. unfold bind at 1.
  destruct (restore_initial_settings E nodes params init (record_event StopStream w))
    as [rr wr] eqn:Hrest.
  apply restore_stops_at_first_failure in Hrest as (l & _ & _ & Hres).
  destruct rr; [|done|done]. unfold bind, call. cbn. discriminate.
Qed.

(** A streaming block whose loop raised ends with an exception. *)
Lemma loop_error_ends_streaming fuel nc nodes params init w1 e wb :
  with_stream (acquisition_loop E S fuel nc) w1 = (Raise e, wb) ->
  exists e' w',
    streaming E S fuel (nc, nodes, params, init) w1 = (Raise e', w').
Proof.
  intros Hbody. unfold streaming, try_finally. rewrite Hbody.
  pose proof (teardown_ends nodes params init wb) as Hend.
  destruct (teardown E nodes params init wb) as [[u|e2|] wt]; [eauto|eauto|].
  by destruct Hend.
Qed.

End LoopErrors.

Section OneIteration.
Variables (E : env) (S : Settings).

(** What one turn of the loop does, by cases on what the outside and the
    decoding answer. *)
Lemma acquisition_loop_step fuel nc w :
  acquisition_loop E S (Datatypes.S fuel) nc w =
  match next_buffer E (log w) with
  | Raise e => (Raise e, extend w [GetBuffer])
  | Diverge => (Diverge, extend w [GetBuffer])
  | Ret it =>
      match decode nc (BYTES_PER_PIXEL S) (BINNING S) it with
      | Raise e => (Raise e, extend w [GetBuffer; CopyBuffer; RequeueBuffer])
      | Diverge => (Diverge, extend w [GetBuffer; CopyBuffer; RequeueBuffer])
      | Ret g =>
          match image_max g with
          | None =>
              (Raise ValueError, extend w [GetBuffer; CopyBuffer; RequeueBuffer])
          | Some m =>
              if (key_after E w m =? 27)%Z
              then (Ret tt, extend w (iteration_calls m ++ [WaitKey]))
              else acquisition_loop E S fuel nc
                     (extend w (iteration_calls m ++ [WaitKey]))
          end
      end
  end.
Proof.
  cbn [acquisition_loop]. unfold bind at 1, get_buffer.
  destruct (next_buffer E (log w)) as [it|e|]; [|done|done].
  unfold bind at 1, call at 1. unfold bind at 1, call at 1.
  unfold bind at 1, lift.
  destruct (decode nc (BYTES_PER_PIXEL S) (BINNING S) it) as [g|e|];
    [|by unfold extend, record_event; cbn; rewrite <- !app_assoc
     |by unfold extend, record_event; cbn; rewrite <- !app_assoc].
  unfold bind at 1, np_max, image_max.
  destruct (concat g) as [|c cells].
  { unfold raise, extend, record_event; cbn. by rewrite <- !app_assoc. }
  unfold ret at 1. unfold bind, print, call, wait_key, key_after, ret,
    iteration_calls, extend, record_event; cbn [cam tl_stream log].
  rewrite <- !app_assoc. cbn [app].
  destruct (_ =? _)%Z; reflexivity.
Qed.

End OneIteration.

Section LoopAndFinally.
Variables (E : env) (S : Settings).

(** When the loop raises, the stream context is left, the [finally] block
    runs from its first call on, and the streaming block raises: the
    exception of the loop when the restore returned, that of the restore
    otherwise. *)
Lemma loop_error_runs_finally fuel nc nodes params init w1 e1 wl :
  acquisition_loop E S fuel nc (record_event StartStream w1) = (Raise e1, wl) ->
  exists e' w' l tail,
    streaming E S fuel (nc, nodes, params, init) w1 = (Raise e', w') /\
    writes_from init l /\
    log w' = log wl ++ ExitStream :: StopStream :: Print MsgRestoring :: l ++ tail /\
    ((e' = e1 /\ tail = disconnect_calls) \/
     (tail = [] /\ exists p, e' = WriteRejected p \/ e' = KeyError p)).
Proof.
  intros Hloop. unfold streaming, try_finally at 1, with_stream.
  unfold bind at 1, call at 1. unfold try_finally at 1. rewrite Hloop.
  unfold call at 1. unfold teardown. unfold bind at 1, call at 1.
  unfold bind at 1.
  destruct (restore_initial_settings E nodes params init
              (record_event StopStream (record_event ExitStream wl)))
    as [rr wr] eqn:Hrest.
  apply restore_stops_at_first_failure in Hrest as (l & Hlog & Hfrom & Hres).
  cbn [log record_event] in Hlog. rewrite <- !app_assoc in Hlog. cbn [app] in Hlog.
  destruct rr as [u|e|]; [| |done].
  - unfold bind, call, print, call. cbn [record_event log].
    eexists e1, _, l, disconnect_calls. split; [reflexivity|].
    split; [done|]. split; [|by left].
    cbn [log record_event]. rewrite Hlog. unfold disconnect_calls.
    rewrite <- !app_assoc. cbn [app]. reflexivity.
  - eexists e, wr, l, []. split; [reflexivity|]. split; [done|].
    split; [by rewrite app_nil_r|]. right. split; [done|].
    destruct Hres as (pre & p & post & _ & [[-> _]|[-> _]]); eauto.
Qed.

End LoopAndFinally.

(** C4 (as amended).  The loop catches nothing.  An iteration in which
    [get_buffer], the decoding or [np.max] raises ends the loop with that
    exception, without another [get_buffer] and without polling the key.  The
    loop reaches a next iteration only after an iteration in which every step
    succeeded and the key was not ESC (27); after such an iteration it goes
    on, and with ESC it returns.  When the loop has raised, the stream
    context is left, the [finally] block runs (stop, restore, and the three
    closing calls if the restore returned) and the streaming block ends with
    an exception. *)
Theorem loop_error_ends_session
    (E : env) (S : Settings) (fuel : nat) (nc : nat) (w : world) :
  (forall e, iteration_fails E S nc w e ->
     exists l,
       acquisition_loop E S (Datatypes.S fuel) nc w = (Raise e, extend w l) /\
       List.filter is_get_buffer l = [GetBuffer] /\
       List.filter is_wait_key l = []) /\
  (forall r w' l,
     acquisition_loop E S (Datatypes.S fuel) nc w = (r, w') ->
     log w' = log w ++ l ->
     2 <= length (List.filter is_get_buffer l) ->
     exists m, iteration_succeeds E S nc w m /\ key_after E w m <> 27%Z) /\
  (forall m, iteration_succeeds E S nc w m ->
     acquisition_loop E S (Datatypes.S fuel) nc w
     = if (key_after E w m =? 27)%Z
       then (Ret tt, extend w (iteration_calls m ++ [WaitKey]))
       else acquisition_loop E S fuel nc
              (extend w (iteration_calls m ++ [WaitKey]))) /\
  (forall fuel0 nodes params init w1 e1 wl,
     acquisition_loop E S fuel0 nc (record_event StartStream w1) = (Raise e1, wl) ->
     exists e' w' l tail,
       streaming E S fuel0 (nc, nodes, params, init) w1 = (Raise e', w') /\
       writes_from init l /\
       log w' = log wl ++ ExitStream :: StopStream :: Print MsgRestoring
                            :: l ++ tail /\
       ((e' = e1 /\ tail = disconnect_calls) \/
        (tail = [] /\ exists p, e' = WriteRejected p \/ e' = KeyError p))).
Proof.
  pose proof (acquisition_loop_step E S fuel nc w) as Hstep.
  split; [|split; [|split]].
  - intros e [Hbuf|[(it & Hbuf & Hdec)|(it & g & Hbuf & Hdec & Hmax & ->)]];
      rewrite Hstep, Hbuf, ?Hdec, ?Hmax; eexists; (split; [reflexivity|done]).
  - intros r w' l Hrun Hlog Htwice. rewrite Hstep in Hrun.
    assert (forall l0, w' = extend w l0 ->
              length (List.filter is_get_buffer l0) < 2 -> False) as Hone.
    { intros l0 -> Hl0. cbn [extend log] in Hlog.
      apply app_inv_head in Hlog as ->. lia. }
    destruct (next_buffer E (log w)) as [it|e|] eqn:Hbuf;
      [|injection Hrun as <- <-; exfalso; eapply Hone; [done|cbn; lia]
       |injection Hrun as <- <-; exfalso; eapply Hone; [done|cbn; lia]].
    destruct (decode nc (BYTES_PER_PIXEL S) (BINNING S) it) as [g|e|] eqn:Hdec;
      [|injection Hrun as <- <-; exfalso; eapply Hone; [done|cbn; lia]
       |injection Hrun as <- <-; exfalso; eapply Hone; [done|cbn; lia]].
    destruct (image_max g) as [m|] eqn:Hmax;
      [|injection Hrun as <- <-; exfalso; eapply Hone; [done|cbn; lia]].
    exists m. split; [by exists it, g|].
    intros Hkey. rewrite Hkey in Hrun. cbn in Hrun.
    injection Hrun as <- <-. eapply Hone; [done|cbn; lia].
  - intros m (it & g & Hbuf & Hdec & Hmax).
    by rewrite Hstep, Hbuf, Hdec, Hmax.
  - intros. by apply loop_error_runs_finally.
Qed.

Lemma loop_error_ends_session_witness :
  exists l,
    acquisition_loop timeout_env program_settings 5 3 fresh_world
      = (Raise AcquisitionError, extend fresh_world l) /\
    List.filter is_get_buffer l = [GetBuffer] /\
    List.filter is_wait_key l = [].
Proof.
  apply (proj1 (loop_error_ends_session timeout_env program_settings 4 3
                  fresh_world)).
  left. reflexivity.
Defined.

(** C4, counterexample.  The first [get_buffer] times out; the run is
    followed for up to five iterations, yet the session ends with the
    exception after a single [get_buffer]: the iteration is not skipped and
    no next iteration takes place. *)
Lemma acquire_timeout_ends_session :
  fst timeout_session = Raise AcquisitionError /\
  List.filter is_get_buffer (log (snd timeout_session)) = [GetBuffer] /\
  In StopStream (log (snd timeout_session)).
Proof. vm_compute. repeat split. auto 100. Qed.

(** ** The snapshot and the configuration *)

Lemma written_names_app l1 l2 :
  written_names (l1 ++ l2) = written_names l1 ++ written_names l2.
Proof. apply flat_map_app. Qed.

Lemma setup_trace_writes E S c :
  written_names (setup_trace E S c) = configured_parameters ++ stream_parameters.
Proof.
  unfold setup_trace. cbv zeta. rewrite !written_names_app.
  destruct (exposure_warning _ _ _); reflexivity.
Qed.

Lemma snapshot_domain (init c : gmap string value) :
  (forall p, init !! p =
     if bool_decide (p ∈ selected_parameters) then c !! p else None) ->
  Forall (fun p => is_Some (init !! p)) selected_parameters ->
  dom init = list_to_set selected_parameters.
Proof.
  intros Hinit Hsome. apply set_eq. intros p.
  rewrite elem_of_dom, elem_of_list_to_set. split.
  - intros Hp. rewrite Hinit in Hp. case_bool_decide; [done|].
    by destruct Hp.
  - intros Hp. rewrite Forall_forall in Hsome. by apply Hsome.
Qed.

(** C9 (as amended).  A [setup] that returns has captured exactly the ten
    selected parameters.  It has written nine of them (all but
    [TriggerSource]) and, besides, three transport-layer parameters that are
    not captured.  A restore from that snapshot writes only parameters of the
    snapshot, each with its snapshot value. *)
Theorem snapshot_and_mutations
    (E : env) (S : Settings) (w : world)
    (st : nat * list string * list string * gmap string value) (w' : world) :
  setup E S w = (Ret st, w') ->
  exists init l,
    st = (3, selected_parameters, selected_parameters, init) /\
    dom init = list_to_set selected_parameters /\
    log w' = log w ++ l /\
    written_names l = configured_parameters ++ stream_parameters /\
    names_missing_from (written_names l) selected_parameters = ["TriggerSource"] /\
    names_missing_from selected_parameters (written_names l) = stream_parameters /\
    (forall E' w2 r w3,
       restore_initial_settings E' selected_parameters selected_parameters init w2
         = (r, w3) ->
       exists lr, log w3 = log w2 ++ Print MsgRestoring :: lr /\
                  Forall (fun ev => exists p v b,
                            ev = WriteValue p v b /\ p ∈ dom init /\
                            init !! p = Some v) lr).
Proof.
  intros Hsetup.
  apply setup_ret in Hsetup as (init & -> & Hinit & Hsome & Hlog & _ & _).
  exists init, (setup_trace E S (cam w)).
  split; [done|]. split; [by eapply snapshot_domain|]. split; [done|].
  rewrite setup_trace_writes. split; [done|].
  split; [reflexivity|]. split; [reflexivity|].
  intros E' w2 r w3 Hrest.
  apply restore_stops_at_first_failure in Hrest as (lr & Hlr & Hfrom & _).
  exists lr. split; [done|].
  eapply Forall_impl; [exact Hfrom|].
  intros ev (p & v & b & -> & Hp). exists p, v, b.
  split; [done|]. split; [|done]. apply elem_of_dom. eauto.
Qed.

Lemma snapshot_and_mutations_witness :
  exists init l,
    (3, selected_parameters, selected_parameters, snapshot_of (fst quiet_setup))
      = (3, selected_parameters, selected_parameters, init) /\
    dom init = list_to_set selected_parameters /\
    log (snd quiet_setup) = log fresh_world ++ l /\
    written_names l = configured_parameters ++ stream_parameters /\
    names_missing_from (written_names l) selected_parameters = ["TriggerSource"] /\
    names_missing_from selected_parameters (written_names l) = stream_parameters /\
    (forall E' w2 r w3,
       restore_initial_settings E' selected_parameters selected_parameters init w2
         = (r, w3) ->
       exists lr, log w3 = log w2 ++ Print MsgRestoring :: lr /\
                  Forall (fun ev => exists p v b,
                            ev = WriteValue p v b /\ p ∈ dom init /\
                            init !! p = Some v) lr).
Proof.
  apply (snapshot_and_mutations quiet_env program_settings fresh_world
           (3, selected_parameters, selected_parameters,
            snapshot_of (fst quiet_setup))
           (snd quiet_setup)).
  vm_compute. reflexivity.
Defined.

(** C9, counterexample.  On the factory camera [setup] captures
    [TriggerSource] and never writes it, and writes
    [StreamBufferHandlingMode] without capturing it: the captured names and
    the written names are different sets. *)
Lemma snapshot_differs_from_mutations :
  is_Some (snapshot_of (fst quiet_setup) !! "TriggerSource") /\
  name_in (written_names (log (snd quiet_setup))) "TriggerSource" = false /\
  name_in (written_names (log (snd quiet_setup))) "StreamBufferHandlingMode" = true /\
  snapshot_of (fst quiet_setup) !! "StreamBufferHandlingMode" = None.
Proof. vm_compute. repeat split. eauto. Qed.

(** C2, the failing run.  The factory camera delivers [Mono8].  [setup]
    writes the pixel format before it reads the snapshot, so the snapshot
    holds [Mono12]; after a whole session that ended with ESC and a restore
    in which every write was accepted, the camera is left on [Mono12], not on
    the value it had before the first mutation.  The nine other parameters
    are back to their factory values. *)
Theorem pixel_format_not_restored :
  fst quiet_session = Ret tt /\
  cam fresh_world !! "PixelFormat" = Some (VStr "Mono8") /\
  snapshot_of (fst quiet_setup) !! "PixelFormat" = Some (VStr "Mono12") /\
  cam (snd quiet_session) !! "PixelFormat" = Some (VStr "Mono12") /\
  unrestored (cam fresh_world) (cam (snd quiet_session)) selected_parameters
    = ["PixelFormat"] /\
  (exists l1 l2 l3,
     log (snd quiet_setup)
     = l1 ++ WriteValue "PixelFormat" (VStr "Mono12") true
          :: l2 ++ ReadValue "PixelFormat" :: l3).
Proof.
  vm_compute. repeat split.
  eexists [_], [], _. reflexivity.
Qed.

(** ** Running the monad forwards *)

Section Returns.
Context (I : world -> Prop).

Lemma returns_ret {A} (a : A) : returns I (ret a).
Proof. intros w Hw. by exists a, w. Qed.

Lemma returns_bind {A B} (m : M A) (f : A -> M B) :
  returns I m -> (forall a, returns I (f a)) -> returns I (bind m f).
Proof.
  intros Hm Hf w Hw. destruct (Hm w Hw) as (a & w1 & Hrun & Hw1).
  unfold bind. rewrite Hrun. by apply Hf.
Qed.

Lemma returns_bind_val {A B} (R : A -> Prop) (m : M A) (f : A -> M B) :
  (forall w, I w -> exists a w', m w = (Ret a, w') /\ I w' /\ R a) ->
  (forall a, R a -> returns I (f a)) -> returns I (bind m f).
Proof.
  intros Hm Hf w Hw. destruct (Hm w Hw) as (a & w1 & Hrun & Hw1 & Ha).
  unfold bind. rewrite Hrun. by apply Hf.
Qed.

End Returns.

Section ReturnsProgram.
Variables (E : env) (S : Settings).
Hypothesis camera_accepts : accepting E.

Lemma nodes_present_log w l :
  nodes_present w ->
  nodes_present {| cam := cam w; tl_stream := tl_stream w; log := l |}.
Proof. done. Qed.

Lemma nodes_present_write w p v t l :
  nodes_present w ->
  nodes_present {| cam := <[p := v]> (cam w); tl_stream := t; log := l |}.
Proof.
  unfold nodes_present. cbn [cam]. intros H.
  eapply Forall_impl; [exact H|]. cbn beta. intros q [x Hq].
  destruct (decide (p = q)) as [->|Hne].
  - rewrite lookup_insert_eq. eauto.
  - rewrite lookup_insert_ne by done. eauto.
Qed.

Lemma returns_call ev : returns nodes_present (call ev).
Proof. intros w Hw. exists tt, (record_event ev w). done. Qed.

Lemma returns_print m : returns nodes_present (print m).
Proof. apply returns_call. Qed.

Lemma returns_get_node w :
  nodes_present w ->
  exists a w', get_node selected_parameters w = (Ret a, w') /\
               nodes_present w' /\ a = selected_parameters.
Proof.
  intros Hw. unfold get_node.
  destruct (List.find _ selected_parameters) as [n|] eqn:Hfind.
  - apply find_some in Hfind as [Hin Hnone].
    apply bool_decide_eq_true in Hnone.
    unfold nodes_present in Hw. rewrite Forall_forall in Hw.
    apply list_elem_of_In, Hw in Hin. rewrite Hnone in Hin. by destruct Hin.
  - by eexists _, _.
Qed.

Lemma returns_node_value p :
  p ∈ selected_parameters ->
  returns nodes_present (node_value selected_parameters p).
Proof.
  intros Hp w Hw. unfold node_value. rewrite bool_decide_true by done.
  pose proof Hw as Hall. unfold nodes_present in Hall.
  rewrite Forall_forall in Hall. destruct (Hall p Hp) as [v Hv].
  rewrite Hv. by eexists _, _.
Qed.

Lemma returns_set_node_value p v :
  p ∈ selected_parameters ->
  returns nodes_present (set_node_value E selected_parameters p v).
Proof.
  intros Hp w Hw. unfold set_node_value. rewrite bool_decide_true by done.
  rewrite (proj1 camera_accepts). eexists _, _. split; [done|].
  by apply nodes_present_write.
Qed.

Lemma returns_node_min p :
  p ∈ selected_parameters ->
  returns nodes_present (node_min E selected_parameters p).
Proof.
  intros Hp w Hw. unfold node_min. rewrite bool_decide_true by done.
  by eexists _, _.
Qed.

Lemma returns_node_max p :
  p ∈ selected_parameters ->
  returns nodes_present (node_max E selected_parameters p).
Proof.
  intros Hp w Hw. unfold node_max. rewrite bool_decide_true by done.
  by eexists _, _.
Qed.

Lemma returns_set_tl_value p v : returns nodes_present (set_tl_value E p v).
Proof.
  intros w Hw. unfold set_tl_value. rewrite (proj2 camera_accepts).
  by eexists _, _.
Qed.

Lemma returns_store_initial_settings params acc :
  Forall (fun p => p ∈ selected_parameters) params ->
  returns nodes_present (store_initial_settings selected_parameters params acc).
Proof.
  intros Hall. revert acc. induction Hall as [|p params Hp _ IH]; intros acc;
    cbn [store_initial_settings].
  - apply returns_ret.
  - apply returns_bind; [by apply returns_node_value|]. intros v. apply IH.
Qed.

Lemma selected_elem p : name_in selected_parameters p = true -> p ∈ selected_parameters.
Proof.
  unfold name_in. intros H. apply existsb_exists in H as (q & Hq & Heq).
  apply String.eqb_eq in Heq as ->. by apply list_elem_of_In.
Qed.

Ltac returns_step :=
  lazymatch goal with
  | |- returns _ (bind _ _) => apply returns_bind; [|intros ?]
  | |- returns _ (ret _) => apply returns_ret
  | |- returns _ (print _) => apply returns_print
  | |- returns _ (call _) => apply returns_call
  | |- returns _ (node_value _ _) =>
      apply returns_node_value; apply selected_elem; reflexivity
  | |- returns _ (node_min _ _ _) =>
      apply returns_node_min; apply selected_elem; reflexivity
  | |- returns _ (node_max _ _ _) =>
      apply returns_node_max; apply selected_elem; reflexivity
  | |- returns _ (set_node_value _ _ _ _) =>
      apply returns_set_node_value; apply selected_elem; reflexivity
  | |- returns _ (set_tl_value _ _ _) => apply returns_set_tl_value
  end.

(** On a camera that has the ten nodes and rejects no write, [setup]
    returns, whatever the settings and the limits reported. *)
Lemma setup_returns : returns nodes_present (setup E S).
Proof.
  unfold setup.
  apply (returns_bind_val _ (fun a => a = selected_parameters));
    [apply returns_get_node|]. intros nodes ->.
  returns_step; [returns_step|].
  returns_step.
  { apply returns_store_initial_settings, Forall_forall. done. }
  repeat returns_step.
  destruct (exposure_warning _ _ _); returns_step.
Qed.

End ReturnsProgram.

(** ** The exposure time *)

Lemma Qgt_bool_true x y : Qgt_bool x y = true <-> (y < x)%Q.
Proof.
  unfold Qgt_bool. rewrite negb_true_iff. split.
  - intros H. apply Qnot_le_lt. intros Hle. apply Qle_bool_iff in Hle. congruence.
  - intros H. destruct (Qle_bool x y) eqn:Hb; [|done].
    apply Qle_bool_iff in Hb. by apply Qlt_not_le in H.
Qed.

Lemma Qlt_bool_true x y : Qlt_bool x y = true <-> (x < y)%Q.
Proof. apply Qgt_bool_true. Qed.

Lemma Qgt_bool_false x y : Qgt_bool x y = false <-> (x <= y)%Q.
Proof.
  unfold Qgt_bool. rewrite negb_false_iff. apply Qle_bool_iff.
Qed.

Lemma Qlt_bool_false x y : Qlt_bool x y = false <-> (y <= x)%Q.
Proof. apply Qgt_bool_false. Qed.

(** The three cases of lines 199-207, for a range that is not empty. *)
Lemma exposure_cases (req lo hi : Q) :
  (lo <= hi)%Q ->
  ((hi < req)%Q ->
     exposure_to_apply req lo hi = hi /\ exposure_warning req lo hi = true) /\
  ((req < lo)%Q ->
     exposure_to_apply req lo hi = lo /\ exposure_warning req lo hi = true) /\
  ((lo <= req)%Q /\ (req <= hi)%Q ->
     exposure_to_apply req lo hi = req /\ exposure_warning req lo hi = false).
Proof.
  intros Hrange. unfold exposure_to_apply, exposure_warning. repeat split.
  - by rewrite (proj2 (Qgt_bool_true req hi) H).
  - by rewrite (proj2 (Qgt_bool_true req hi) H).
  - assert (req <= hi)%Q as Hle.
    { apply Qlt_le_weak. eapply Qlt_le_trans; eauto. }
    rewrite (proj2 (Qgt_bool_false req hi) Hle).
    by rewrite (proj2 (Qlt_bool_true req lo) H).
  - rewrite (proj2 (Qlt_bool_true req lo) H). apply orb_true_r.
  - destruct H as [Hlo Hhi].
    rewrite (proj2 (Qgt_bool_false req hi) Hhi).
    by rewrite (proj2 (Qlt_bool_false req lo) Hlo).
  - destruct H as [Hlo Hhi].
    rewrite (proj2 (Qgt_bool_false req hi) Hhi).
    by rewrite (proj2 (Qlt_bool_false req lo) Hlo).
Qed.

(** The warning is printed exactly when the request is out of range. *)
Lemma warning_in_trace E S c :
  In (Print (MsgExposureWarning (EXP_TIME_US S))) (setup_trace E S c) <->
  exposure_warning (EXP_TIME_US S)
    (fst (exposure_limits E S c)) (snd (exposure_limits E S c)) = true.
Proof.
  unfold setup_trace. cbv zeta. rewrite !in_app_iff.
  destruct (exposure_warning _ _ _); cbn; split; try done.
  - intros _. right; right; right. left. by left.
  - intros H. repeat (destruct H as [H|H]; try discriminate H); done.
Qed.

(** ** The exposure time on a camera that enforces its range *)

Lemma clamp_in_range (req lo hi : Q) :
  (lo <= hi)%Q -> in_range (lo, hi) (exposure_to_apply req lo hi) = true.
Proof.
  intros Hrange. unfold in_range, exposure_to_apply. cbn [fst snd].
  apply andb_true_iff. rewrite !Qle_bool_iff.
  destruct (Qgt_bool req hi) eqn:Habove.
  - split; [done|apply Qle_refl].
  - apply Qgt_bool_false in Habove.
    destruct (Qlt_bool req lo) eqn:Hbelow.
    + split; [apply Qle_refl|done].
    + apply Qlt_bool_false in Hbelow. done.
Qed.

Section Enforcing.
Variables (E : env) (S : Settings) (lo hi : Q).
Hypothesis reported : forall c, limits E c "ExposureTime" = (lo, hi).
Hypothesis not_empty : (lo <= hi)%Q.
Hypothesis enforcing : exposure_enforcing E (lo, hi).

Lemma returns_write_other p v :
  p ∈ selected_parameters -> p <> "ExposureTime" ->
  returns nodes_present (set_node_value E selected_parameters p v).
Proof.
  intros Hp Hne w Hw. unfold set_node_value. rewrite bool_decide_true by done.
  rewrite (proj1 (proj2 enforcing)) by done. eexists _, _. split; [done|].
  by apply nodes_present_write.
Qed.

Lemma returns_write_exposure q :
  in_range (lo, hi) q = true ->
  returns nodes_present
    (set_node_value E selected_parameters "ExposureTime" (VFloat q)).
Proof.
  intros Hq w Hw. unfold set_node_value.
  rewrite bool_decide_true by (apply selected_elem; reflexivity).
  rewrite (proj1 enforcing), Hq. eexists _, _. split; [done|].
  by apply nodes_present_write.
Qed.

Lemma returns_write_stream p v : returns nodes_present (set_tl_value E p v).
Proof.
  intros w Hw. unfold set_tl_value. rewrite (proj2 (proj2 enforcing)).
  by eexists _, _.
Qed.

Lemma exposure_min_read w :
  nodes_present w ->
  exists a w', node_min E selected_parameters "ExposureTime" w = (Ret a, w') /\
               nodes_present w' /\ a = lo.
Proof.
  intros Hw. unfold node_min.
  rewrite bool_decide_true by (apply selected_elem; reflexivity).
  rewrite reported. by eexists _, _.
Qed.

Lemma exposure_max_read w :
  nodes_present w ->
  exists a w', node_max E selected_parameters "ExposureTime" w = (Ret a, w') /\
               nodes_present w' /\ a = hi.
Proof.
  intros Hw. unfold node_max.
  rewrite bool_decide_true by (apply selected_elem; reflexivity).
  rewrite reported. by eexists _, _.
Qed.

Ltac enforced_step :=
  lazymatch goal with
  | |- returns _ (bind (node_min _ _ "ExposureTime") _) =>
      apply (returns_bind_val _ (fun a => a = lo));
        [apply exposure_min_read|intros ? ->]
  | |- returns _ (bind (node_max _ _ "ExposureTime") _) =>
      apply (returns_bind_val _ (fun a => a = hi));
        [apply exposure_max_read|intros ? ->]
  | |- returns _ (bind _ _) => apply returns_bind; [|intros ?]
  | |- returns _ (ret _) => apply returns_ret
  | |- returns _ (print _) => apply returns_print
  | |- returns _ (call _) => apply returns_call
  | |- returns _ (node_value _ _) =>
      apply returns_node_value; apply selected_elem; reflexivity
  | |- returns _ (node_min _ _ _) =>
      apply returns_node_min; apply selected_elem; reflexivity
  | |- returns _ (node_max _ _ _) =>
      apply returns_node_max; apply selected_elem; reflexivity
  | |- returns _ (set_node_value _ _ "ExposureTime" _) =>
      apply returns_write_exposure; by apply clamp_in_range
  | |- returns _ (set_node_value _ _ _ _) =>
      apply returns_write_other; [apply selected_elem; reflexivity|intros [=]]
  | |- returns _ (set_tl_value _ _ _) => apply returns_write_stream
  end.

(** On such a camera [setup] returns whatever exposure time is requested:
    the value it writes has been brought into the range. *)
Lemma setup_returns_enforced : returns nodes_present (setup E S).
Proof.
  unfold setup.
  apply (returns_bind_val _ (fun a => a = selected_parameters));
    [apply returns_get_node|]. intros nodes ->.
  enforced_step; [enforced_step|].
  enforced_step.
  { apply returns_store_initial_settings, Forall_forall. done. }
  repeat enforced_step.
  destruct (exposure_warning _ _ _); enforced_step.
Qed.

End Enforcing.

Lemma exposure_write_in_trace E S c :
  In (WriteValue "ExposureTime" (VFloat (applied_exposure E S c)) true)
     (setup_trace E S c).
Proof.
  unfold setup_trace. cbv zeta.
  apply in_or_app; right. apply in_or_app; right.
  apply in_or_app; right. apply in_or_app; right. by left.
Qed.

(** C7 (as amended).  For every exposure time with which the settings can
    be loaded and every reported range [lo <= hi], the value [setup] writes
    is [hi] for a request above [hi], [lo] for a request below [lo] and the
    request itself within the range; it always lies in the range.  Every
    [setup] that returns has written that value, holds it in the camera, and
    has printed the warning exactly for a request out of range.  On a camera
    that takes an exposure time exactly when it lies in the range, and takes
    the other writes, [setup] returns for every request. *)
Theorem exposure_clamp (E : env) (S : Settings) (lo hi : Q) :
  (forall c, limits E c "ExposureTime" = (lo, hi)) ->
  (lo <= hi)%Q ->
  load_settings S = Ret S ->
  let requested := EXP_TIME_US S in
  let applied := exposure_to_apply requested lo hi in
  let warning := Print (MsgExposureWarning requested) in
  ((hi < requested)%Q -> applied = hi) /\
  ((requested < lo)%Q -> applied = lo) /\
  ((lo <= requested)%Q /\ (requested <= hi)%Q -> applied = requested) /\
  in_range (lo, hi) applied = true /\
  (forall w st w',
     setup E S w = (Ret st, w') ->
     cam w' !! "ExposureTime" = Some (VFloat applied) /\
     exists l,
       log w' = log w ++ l /\
       In (WriteValue "ExposureTime" (VFloat applied) true) l /\
       ((hi < requested)%Q \/ (requested < lo)%Q -> In warning l) /\
       ((lo <= requested)%Q /\ (requested <= hi)%Q -> ~ In warning l)) /\
  (forall w,
     exposure_enforcing E (lo, hi) -> nodes_present w ->
     exists st w', setup E S w = (Ret st, w')).
Proof.
  intros Hreported Hrange _. cbv zeta.
  destruct (exposure_cases (EXP_TIME_US S) lo hi Hrange)
    as (Habove & Hbelow & Hwithin).
  split; [intros H; by apply Habove|].
  split; [intros H; by apply Hbelow|].
  split; [intros H; by apply Hwithin|].
  split; [by apply clamp_in_range|].
  split.
  - intros w st w' Hrun.
    apply setup_ret in Hrun as (init & _ & _ & _ & Hlog & Hcam & _).
    assert (exposure_limits E S (cam w) = (lo, hi)) as Hlim
      by apply Hreported.
    assert (applied_exposure E S (cam w)
            = exposure_to_apply (EXP_TIME_US S) lo hi) as Happ
      by (unfold applied_exposure; by rewrite Hlim).
    split.
    { rewrite Hcam. unfold cam_configured.
      rewrite !lookup_insert_ne by (intros [=]).
      by rewrite lookup_insert_eq, Happ. }
    exists (setup_trace E S (cam w)). split; [done|].
    split; [rewrite <- Happ; apply exposure_write_in_trace|].
    rewrite warning_in_trace, Hlim. cbn [fst snd]. split.
    + intros [H|H]; [by apply Habove|by apply Hbelow].
    + intros H Hw. destruct (Hwithin H) as [_ Hno]. congruence.
  - intros w Henf Hnodes.
    destruct (setup_returns_enforced E S lo hi Hreported Hrange Henf w Hnodes)
      as (st & w' & Hrun & _).
    eauto.
Qed.

(** A request above the range, on a camera that enforces the range. *)
Lemma exposure_clamp_witness :
  let E := exposure_only_env in
  let S := exposure_settings (200000 # 1) in
  let lo := (10 # 1)%Q in
  let hi := (100000 # 1)%Q in
  let requested := EXP_TIME_US S in
  let applied := exposure_to_apply requested lo hi in
  let warning := Print (MsgExposureWarning requested) in
  ((hi < requested)%Q -> applied = hi) /\
  ((requested < lo)%Q -> applied = lo) /\
  ((lo <= requested)%Q /\ (requested <= hi)%Q -> applied = requested) /\
  in_range (lo, hi) applied = true /\
  (forall w st w',
     setup E S w = (Ret st, w') ->
     cam w' !! "ExposureTime" = Some (VFloat applied) /\
     exists l,
       log w' = log w ++ l /\
       In (WriteValue "ExposureTime" (VFloat applied) true) l /\
       ((hi < requested)%Q \/ (requested < lo)%Q -> In warning l) /\
       ((lo <= requested)%Q /\ (requested <= hi)%Q -> ~ In warning l)) /\
  (forall w,
     exposure_enforcing E (lo, hi) -> nodes_present w ->
     exists st w', setup E S w = (Ret st, w')).
Proof.
  apply (exposure_clamp exposure_only_env (exposure_settings (200000 # 1))
           (10 # 1) (100000 # 1)).
  - intros c. reflexivity.
  - vm_compute. discriminate.
  - reflexivity.
Defined.

(** The same request run: [setup] returns, the camera holds the upper
    limit, and the warning is in the trace. *)
Example exposure_clamped_above :
  exposure_enforcing exposure_only_env exposure_range /\
  (snd exposure_range < 200000 # 1)%Q /\
  (exists st,
     fst (setup exposure_only_env (exposure_settings (200000 # 1)) fresh_world)
     = Ret st) /\
  cam (snd (setup exposure_only_env (exposure_settings (200000 # 1)) fresh_world))
    !! "ExposureTime" = Some (VFloat (100000 # 1)) /\
  In (Print (MsgExposureWarning (200000 # 1)))
     (log (snd (setup exposure_only_env (exposure_settings (200000 # 1))
                  fresh_world))).
Proof.
  split.
  { split; [|split]; [intros c q; reflexivity| |done].
    intros c p v Hp. cbn. destruct (String.eqb_spec p "ExposureTime"); done. }
  split; [reflexivity|]. vm_compute. split; [eauto|]. split; [done|]. auto 100.
Qed.

(** C7, counterexample.  On a camera that enforces the limits it reports
    for the exposure time and for the frame rate, a request below the
    exposure range, and one above it, make [setup] fail: the frame rate
    derived from the request is written as it is, before the exposure time is
    clamped, and the camera rejects it.  The same camera takes the program's
    own request.  A request of zero does not get that far: loading the
    settings raises. *)
Lemma out_of_range_request_fails_setup :
  (1 # 1 < fst exposure_range)%Q /\
  load_settings (exposure_settings (1 # 1)) = Ret (exposure_settings (1 # 1)) /\
  fst (setup strict_env (exposure_settings (1 # 1)) fresh_world)
    = Raise (WriteRejected "AcquisitionFrameRate") /\
  (snd exposure_range < 10000000 # 1)%Q /\
  fst (setup strict_env (exposure_settings (10000000 # 1)) fresh_world)
    = Raise (WriteRejected "AcquisitionFrameRate") /\
  (exists st, fst (setup strict_env program_settings fresh_world) = Ret st) /\
  load_settings (exposure_settings 0) = Raise ZeroDivisionError.
Proof.
  split; [reflexivity|]. split; [reflexivity|]. split; [vm_compute; reflexivity|].
  split; [reflexivity|]. split; [vm_compute; reflexivity|].
  split; [vm_compute; eauto|]. reflexivity.
Qed.

(** The clamp on concrete requests: above, below, within the range, and
    against limits given in the wrong order, where a request that is both
    above the upper limit and below the lower one is set to the upper one. *)
Example exposure_clamp_examples :
  exposure_to_apply (200000 # 1) (10 # 1) (100000 # 1) = (100000 # 1)%Q /\
  exposure_to_apply (5 # 1) (10 # 1) (100000 # 1) = (10 # 1)%Q /\
  exposure_to_apply (20000 # 1) (10 # 1) (100000 # 1) = (20000 # 1)%Q /\
  exposure_warning (200000 # 1) (10 # 1) (100000 # 1) = true /\
  exposure_warning (20000 # 1) (10 # 1) (100000 # 1) = false /\
  exposure_to_apply (5 # 1) (10 # 1) (1 # 1) = (1 # 1)%Q.
Proof. repeat split. Qed.

(** * Further properties of the program *)

(** ** The connection loop, whatever the network does *)

Section ConnectAlways.
Variables (E : env) (S : Settings).



End ConnectAlways.


(** ** The cells of a decoded frame *)










(** ** Restoring what [setup] captured *)



(** ** What [setup] leaves in the camera *)




(** ** Buffers in the loop *)




End Lucid.
